(** * gh-buddy: branch names, issue types, pull-request titles and bodies

    A shallow embedding of the string-transformation core of gh-buddy
    (packages [branch] and [cmd]) together with the parts of the Go standard
    library it calls ([strings], [strconv], [fmt], [regexp], [unicode/utf8]).

    A Go [string] is an immutable sequence of bytes; it is modelled as
    [list ascii] (an [ascii] is exactly one byte).  A Go [int] is a 64-bit
    signed integer on the platforms the Makefile builds for (amd64, arm64);
    it is modelled as a [Z] within [MinInt64 .. MaxInt64].  A [rune] is a [Z]. *)

From Stdlib Require Import Ascii String.
From Stdlib Require Import List ZArith Zbitwise NArith Bool Lia.
Import ListNotations.
Local Open Scope Z_scope.

(** ** Go strings as byte sequences *)

Definition str := list ascii.

(** A string literal of the source. *)
Definition lit (s : string) : str := list_ascii_of_string s.

Definition byte_val (c : ascii) : Z := Z.of_N (N_of_ascii c).

(** Conversion [byte(x)] of an integer: the low eight bits. *)
Definition to_byte (x : Z) : ascii := ascii_of_N (Z.to_N (x mod 256)).

(** [s == t] on strings. *)
Fixpoint str_eqb (s t : str) : bool :=
  match s, t with
  | [], [] => true
  | c :: s', d :: t' => Ascii.eqb c d && str_eqb s' t'
  | _, _ => false
  end.

(** [s[:n]] and [s[n:]] for [0 <= n <= len(s)] (Go panics outside of this
    range; every use below is guarded by the source so that it stays inside). *)
Definition slice_to (s : str) (n : nat) : str := firstn n s.
Definition slice_from (s : str) (n : nat) : str := skipn n s.

(** Character classes over bytes. *)
Definition in_range (lo hi : Z) (c : ascii) : bool :=
  (lo <=? byte_val c) && (byte_val c <=? hi).

Definition is_upper (c : ascii) : bool := in_range 65 90 c.   (* 'A'..'Z' *)
Definition is_lower (c : ascii) : bool := in_range 97 122 c.  (* 'a'..'z' *)
Definition is_digit (c : ascii) : bool := in_range 48 57 c.   (* '0'..'9' *)
Definition is_ascii (c : ascii) : bool := byte_val c <? 128.  (* < utf8.RuneSelf *)
Definition is_alnum (c : ascii) : bool := is_lower c || is_upper c || is_digit c.
Definition is_hyphen (c : ascii) : bool := Ascii.eqb c "-"%char.

(** ** Package strconv and the [%d] verb of fmt *)

Module strconv.

Definition MaxInt64 : Z := 9223372036854775807.
Definition MinInt64 : Z := -9223372036854775808.

(** The digit loop of [formatBits] for base 10: digits are produced from the
    least significant one and written in front of what is already there.
    [fuel] bounds the number of iterations. *)
Fixpoint formatBits (fuel : nat) (u : Z) (acc : str) : str :=
  match fuel with
  | O => acc
  | S fuel' =>
      if u <? 10 then to_byte (48 + u) :: acc
      else formatBits fuel' (u / 10) (to_byte (48 + u mod 10) :: acc)
  end.

(** A number [u >= 0] has at most [log2 u + 1] decimal digits. *)
Definition digits_fuel (u : Z) : nat := S (Z.to_nat (Z.log2 u)).

(** [strconv.Itoa], which is also what [fmt]'s [%d] prints for an [int]. *)
Definition Itoa (i : Z) : str :=
  if i <? 0 then "-"%char :: formatBits (digits_fuel (- i)) (- i) []
  else formatBits (digits_fuel i) i [].

(** The value of a run of decimal digits, most significant first; [None] on a
    byte that is not a digit. *)
Fixpoint parse_digits (acc : Z) (s : str) : option Z :=
  match s with
  | [] => Some acc
  | c :: s' =>
      if is_digit c then parse_digits (acc * 10 + (byte_val c - 48)) s'
      else None
  end.

(** [strconv.Atoi]: an optional sign, then at least one digit and digits
    only; a value outside of the range of [int] is an error.  [None] stands
    for a non-nil error. *)
Definition Atoi (s : str) : option Z :=
  match s with
  | [] => None
  | c :: s' =>
      let neg := Ascii.eqb c "-"%char in
      let body := if neg || Ascii.eqb c "+"%char then s' else s in
      match body with
      | [] => None
      | _ =>
          match parse_digits 0 body with
          | None => None
          | Some v =>
              let n := if neg then - v else v in
              if (MinInt64 <=? n) && (n <=? MaxInt64) then Some n else None
          end
      end
  end.

End strconv.

(** ** Package unicode/utf8 *)

Module utf8.

Definition RuneError : Z := 65533.   (* U+FFFD *)
Definition RuneSelf : Z := 128.
Definition MaxRune : Z := 1114111.   (* U+10FFFF *)
Definition surrogateMin : Z := 55296.
Definition surrogateMax : Z := 57343.
Definition rune1Max : Z := 127.
Definition rune2Max : Z := 2047.
Definition rune3Max : Z := 65535.

Definition tx : Z := 128.    (* 1000 0000 *)
Definition t2 : Z := 192.    (* 1100 0000 *)
Definition t3 : Z := 224.    (* 1110 0000 *)
Definition t4 : Z := 240.    (* 1111 0000 *)
Definition maskx : Z := 63.  (* 0011 1111 *)
Definition mask2 : Z := 31.
Definition mask3 : Z := 15.
Definition mask4 : Z := 7.
Definition locb : Z := 128.
Definition hicb : Z := 191.

(** The table [first]: information about the first byte of an encoding.
    The low three bits are the length of the sequence, the high four bits
    index [acceptRanges]; [xx] marks an invalid first byte and [as_] an
    ASCII byte. *)
Definition xx : Z := 241.
Definition as_ : Z := 240.

Definition first (s0 : Z) : Z :=
  if s0 <? 128 then as_
  else if s0 <? 194 then xx          (* 0x80-0xC1 *)
  else if s0 <? 224 then 2           (* s1: 0xC2-0xDF *)
  else if s0 =? 224 then 19          (* s2: 0xE0 *)
  else if s0 <? 237 then 3           (* s3: 0xE1-0xEC *)
  else if s0 =? 237 then 35          (* s4: 0xED *)
  else if s0 <? 240 then 3           (* s3: 0xEE-0xEF *)
  else if s0 =? 240 then 52          (* s5: 0xF0 *)
  else if s0 <? 244 then 4           (* s6: 0xF1-0xF3 *)
  else if s0 =? 244 then 68          (* s7: 0xF4 *)
  else xx.                           (* 0xF5-0xFF *)

(** The table [acceptRanges]: the range of valid second bytes. *)
Definition acceptRanges (i : Z) : Z * Z :=
  if i =? 1 then (160, hicb)
  else if i =? 2 then (locb, 159)
  else if i =? 3 then (144, hicb)
  else if i =? 4 then (locb, 143)
  else (locb, hicb).

(** [utf8.DecodeRuneInString]: the first rune of [s] and its width in bytes;
    [(RuneError, 1)] for an encoding that is invalid or incomplete. *)
Definition DecodeRuneInString (s : str) : Z * nat :=
  match s with
  | [] => (RuneError, 0%nat)
  | c0 :: rest0 =>
      let s0 := byte_val c0 in
      let x := first s0 in
      if as_ <=? x then
        (if x =? xx then RuneError else s0, 1%nat)
      else
        let sz := Z.to_nat (Z.land x 7) in
        let accept := acceptRanges (Z.shiftr x 4) in
        if (length s <? sz)%nat then (RuneError, 1%nat)
        else
          match rest0 with
          | [] => (RuneError, 1%nat)
          | c1 :: rest1 =>
              let s1 := byte_val c1 in
              if (s1 <? fst accept) || (snd accept <? s1) then (RuneError, 1%nat)
              else if (sz <=? 2)%nat then
                (Z.lor (Z.shiftl (Z.land s0 mask2) 6) (Z.land s1 maskx), 2%nat)
              else
                match rest1 with
                | [] => (RuneError, 1%nat)
                | c2 :: rest2 =>
                    let s2 := byte_val c2 in
                    if (s2 <? locb) || (hicb <? s2) then (RuneError, 1%nat)
                    else if (sz <=? 3)%nat then
                      (Z.lor (Z.lor (Z.shiftl (Z.land s0 mask3) 12)
                                    (Z.shiftl (Z.land s1 maskx) 6))
                             (Z.land s2 maskx), 3%nat)
                    else
                      match rest2 with
                      | [] => (RuneError, 1%nat)
                      | c3 :: _ =>
                          let s3 := byte_val c3 in
                          if (s3 <? locb) || (hicb <? s3) then (RuneError, 1%nat)
                          else
                            (Z.lor (Z.lor (Z.lor (Z.shiftl (Z.land s0 mask4) 18)
                                                 (Z.shiftl (Z.land s1 maskx) 12))
                                          (Z.shiftl (Z.land s2 maskx) 6))
                                   (Z.land s3 maskx), 4%nat)
                      end
                end
          end
  end.

(** [utf8.RuneLen]: the number of bytes of the encoding of a rune, -1 for a
    value that is not a valid rune. *)
Definition RuneLen (r : Z) : Z :=
  if r <? 0 then -1
  else if r <=? rune1Max then 1
  else if r <=? rune2Max then 2
  else if (surrogateMin <=? r) && (r <=? surrogateMax) then -1
  else if r <=? rune3Max then 3
  else if r <=? MaxRune then 4
  else -1.

(** [utf8.AppendRune] onto an empty buffer.  A [rune] is an [int32]; the
    source compares [uint32(r)], which sends a negative rune above
    [MaxRune]. *)
Definition AppendRune (r : Z) : str :=
  let i := r mod 4294967296 in
  if i <=? rune1Max then [to_byte r]
  else if i <=? rune2Max then
    [to_byte (Z.lor t2 (Z.shiftr r 6)); to_byte (Z.lor tx (Z.land r maskx))]
  else if (MaxRune <? i) || ((surrogateMin <=? i) && (i <=? surrogateMax)) then
    let r := RuneError in
    [to_byte (Z.lor t3 (Z.shiftr r 12));
     to_byte (Z.lor tx (Z.land (Z.shiftr r 6) maskx));
     to_byte (Z.lor tx (Z.land r maskx))]
  else if i <=? rune3Max then
    [to_byte (Z.lor t3 (Z.shiftr r 12));
     to_byte (Z.lor tx (Z.land (Z.shiftr r 6) maskx));
     to_byte (Z.lor tx (Z.land r maskx))]
  else
    [to_byte (Z.lor t4 (Z.shiftr r 18));
     to_byte (Z.lor tx (Z.land (Z.shiftr r 12) maskx));
     to_byte (Z.lor tx (Z.land (Z.shiftr r 6) maskx));
     to_byte (Z.lor tx (Z.land r maskx))].

(** The runes a [for i, c := range s] loop visits, each with its byte offset
    and width.  [skip] counts the bytes of [s] that still belong to the rune
    decoded last; [i] is the offset of the head of [s]. *)
Fixpoint range_from (skip : nat) (i : nat) (s : str) : list (nat * Z * nat) :=
  match s with
  | [] => []
  | _ :: s' =>
      match skip with
      | S k => range_from k (S i) s'
      | O =>
          let (c, w) := DecodeRuneInString s in
          (i, c, w) :: range_from (w - 1) (S i) s'
      end
  end.

Definition range (s : str) : list (nat * Z * nat) := range_from 0 0 s.

End utf8.

(** ** Package unicode *)

Module unicode.

Definition MaxASCII : Z := 127.
Definition UpperCase : Z := 0.
Definition LowerCase : Z := 1.

Section CaseTables.

(** [To _case r] is [unicode.To(_case, r)], the lookup of a rune in the
    [CaseRanges] table of the Unicode data.  The table is not part of the
    program; it is a parameter of the model. *)
Variable To : Z -> Z -> Z.

Definition ToLower (r : Z) : Z :=
  if r <=? MaxASCII then
    (if (65 <=? r) && (r <=? 90) then r + (97 - 65) else r)
  else To LowerCase r.

Definition ToUpper (r : Z) : Z :=
  if r <=? MaxASCII then
    (if (97 <=? r) && (r <=? 122) then r - (97 - 65) else r)
  else To UpperCase r.

End CaseTables.

End unicode.

(** ** Package strings *)

Module strings.

Section Map.

Variable mapping : Z -> Z.

(** The first loop of [strings.Map]: skip the runes the mapping leaves as
    they are; stop at the first one that changes (an invalid byte always
    does) with its offset, the rune to write and the width to skip. *)
Fixpoint Map_scan (s : str) (rs : list (nat * Z * nat)) : option (nat * Z * nat) :=
  match rs with
  | [] => None
  | (i, c, _) :: rs' =>
      let r := mapping c in
      if (r =? c) && negb (c =? utf8.RuneError) then Map_scan s rs'
      else if c =? utf8.RuneError then
        let (c', width) := utf8.DecodeRuneInString (slice_from s i) in
        if negb (width =? 1)%nat && (r =? c') then Map_scan s rs'
        else Some (i, r, width)
      else Some (i, r, Z.to_nat (utf8.RuneLen c))
  end.

(** What the second loop writes for one rune; a negative result of the
    mapping drops the rune. *)
Definition Map_write (c : Z) : str :=
  let r := mapping c in
  if 0 <=? r then
    (if r <? utf8.RuneSelf then [to_byte r] else utf8.AppendRune r)
  else [].

(** [strings.Map]. *)
Definition Map (s : str) : str :=
  match Map_scan s (utf8.range s) with
  | None => s
  | Some (i, r, width) =>
      slice_to s i
      ++ (if 0 <=? r then utf8.AppendRune r else [])
      ++ flat_map (fun x => Map_write (snd (fst x)))
                  (utf8.range (slice_from s (i + width)))
  end.

End Map.

Section CaseTables.

Variable To : Z -> Z -> Z.

(** [strings.ToLower]: a string of ASCII bytes is mapped byte by byte, any
    other string goes through [Map] with [unicode.ToLower]. *)
Definition ToLower (s : str) : str :=
  if forallb is_ascii s then
    if existsb is_upper s then
      map (fun c => if is_upper c then to_byte (byte_val c + (97 - 65)) else c) s
    else s
  else Map (unicode.ToLower To) s.

(** [strings.ToUpper]. *)
Definition ToUpper (s : str) : str :=
  if forallb is_ascii s then
    if existsb is_lower s then
      map (fun c => if is_lower c then to_byte (byte_val c - (97 - 65)) else c) s
    else s
  else Map (unicode.ToUpper To) s.

End CaseTables.

(** [strings.TrimLeft(s, cutset)] and [strings.TrimRight(s, cutset)] for a
    cutset of one ASCII byte. *)
Fixpoint TrimLeft (s : str) (cut : ascii) : str :=
  match s with
  | [] => []
  | c :: s' => if Ascii.eqb c cut then TrimLeft s' cut else s
  end.

Fixpoint TrimRight (s : str) (cut : ascii) : str :=
  match s with
  | [] => []
  | c :: s' =>
      match TrimRight s' cut with
      | [] => if Ascii.eqb c cut then [] else [c]
      | t => c :: t
      end
  end.

(** [strings.Trim(s, cutset)] for a cutset of one ASCII byte. *)
Definition Trim (s : str) (cut : ascii) : str :=
  TrimLeft (TrimRight s cut) cut.

(** [strings.Index(s, sep)] for a separator of one byte. *)
Fixpoint IndexByte (s : str) (sep : ascii) : option nat :=
  match s with
  | [] => None
  | c :: s' =>
      if Ascii.eqb c sep then Some O
      else option_map S (IndexByte s' sep)
  end.

(** [strings.SplitN(s, sep, 2)] for a separator of one byte: at most two
    parts, cut at the first separator. *)
Definition SplitN2 (s : str) (sep : ascii) : list str :=
  match IndexByte s sep with
  | None => [s]
  | Some m => [slice_to s m; slice_from s (m + 1)]
  end.

(** [strings.ReplaceAll(s, old, new)] for [old] and [new] of one byte each. *)
Definition ReplaceAll (s : str) (old new : ascii) : str :=
  map (fun c => if Ascii.eqb c old then new else c) s.

(** [strings.HasPrefix], [strings.HasSuffix], [strings.TrimPrefix] and
    [strings.TrimSuffix]. *)
Definition HasPrefix (s prefix : str) : bool :=
  (length prefix <=? length s)%nat && str_eqb (slice_to s (length prefix)) prefix.

Definition HasSuffix (s suffix : str) : bool :=
  (length suffix <=? length s)%nat
  && str_eqb (slice_from s (length s - length suffix)) suffix.

Definition TrimPrefix (s prefix : str) : str :=
  if HasPrefix s prefix then slice_from s (length prefix) else s.

Definition TrimSuffix (s suffix : str) : str :=
  if HasSuffix s suffix then slice_to s (length s - length suffix) else s.

(** [strings.Split(s, sep)] for a separator of one byte: the parts between
    the separators, one part (the whole string) when there is none.  [cur]
    holds the bytes of the current part, the last one first. *)
Fixpoint Split_from (cur : str) (s : str) (sep : ascii) : list str :=
  match s with
  | [] => [rev cur]
  | c :: s' =>
      if Ascii.eqb c sep then rev cur :: Split_from [] s' sep
      else Split_from (c :: cur) s' sep
  end.

Definition Split (s : str) (sep : ascii) : list str := Split_from [] s sep.

(** The table [asciiSpace]: tab, newline, vertical tab, form feed, carriage
    return and space. *)
Definition asciiSpace (c : ascii) : bool :=
  ((9 <=? byte_val c) && (byte_val c <=? 13)) || (byte_val c =? 32).

(** The first loop of [strings.TrimSpace]: go over the leading ASCII white
    space; [inl rest] when a byte from 0x80 on is met at the head of [rest],
    [inr rest] when [rest] is empty or starts with another ASCII byte. *)
Fixpoint TrimSpace_start (s : str) : str + str :=
  match s with
  | [] => inr []
  | c :: s' =>
      if 128 <=? byte_val c then inl s
      else if asciiSpace c then TrimSpace_start s'
      else inr s
  end.

(** The second loop of [strings.TrimSpace]: [s] without its trailing ASCII
    white space. *)
Fixpoint TrimSpace_stop (s : str) : str :=
  match s with
  | [] => []
  | c :: s' =>
      match TrimSpace_stop s' with
      | [] => if asciiSpace c then [] else [c]
      | t => c :: t
      end
  end.

Section SpaceFallback.

(** [strings.TrimSpace] hands a string over to [TrimFunc(s, unicode.IsSpace)]
    or [TrimRightFunc(s, unicode.IsSpace)] as soon as it meets a byte that
    is not ASCII.  These two, with the Unicode white space behind them, are
    parameters of the model. *)
Variable TrimFunc_IsSpace : str -> str.
Variable TrimRightFunc_IsSpace : str -> str.

Definition TrimSpace (s : str) : str :=
  match TrimSpace_start s with
  | inl rest => TrimFunc_IsSpace rest
  | inr rest =>
      let t := TrimSpace_stop rest in
      if 128 <=? byte_val (last t "000"%char) then TrimRightFunc_IsSpace t
      else t
  end.

End SpaceFallback.

End strings.

(** ** Package branch (internal/branch)

    [IssueType], [AllIssueTypes], [ValidIssueType], [GenerateName] and
    [slugify] are the second part of src/internal/prompt/prompt.go. *)

Module branch.

(** [type IssueType string] *)
Definition IssueType := str.

Definition Feature : IssueType := lit "feature".
Definition Bugfix : IssueType := lit "bugfix".
Definition Hotfix : IssueType := lit "hotfix".
Definition Release : IssueType := lit "release".
Definition Chore : IssueType := lit "chore".
Definition Docs : IssueType := lit "docs".
Definition Refactor : IssueType := lit "refactor".
Definition Test : IssueType := lit "test".
Definition Internal : IssueType := lit "internal".

Definition AllIssueTypes : list IssueType :=
  [Feature; Bugfix; Hotfix; Release; Chore; Docs; Refactor; Test; Internal].

(** [AllIssueTypeStrings]: the same list, each type converted to a string. *)
Definition AllIssueTypeStrings : list str :=
  map (fun t : IssueType => (t : str)) AllIssueTypes.

Definition ValidIssueType (s : str) : bool :=
  existsb (fun t => str_eqb t s) AllIssueTypes.

(** [var nonAlphanumeric = regexp.MustCompile(`[^a-zA-Z0-9]+`)]: whether
    a rune is in the (negated) class. *)
Definition nonAlphanumeric_class (c : Z) : bool :=
  negb (((97 <=? c) && (c <=? 122))
        || ((65 <=? c) && (c <=? 90))
        || ((48 <=? c) && (c <=? 57))).

(** The matching loop of [nonAlphanumeric.ReplaceAllString(s, repl)] over
    the runes of [s] (the engine reads the text rune by rune; a byte that is
    not valid UTF-8 counts as U+FFFD): a maximal run of runes of the class
    is one match and becomes [repl], the text outside of the matches is
    copied.  [in_match] tells that the current match has been replaced
    already. *)
Fixpoint nonAlphanumeric_replace
    (in_match : bool) (s : str) (rs : list (nat * Z * nat)) (repl : str) : str :=
  match rs with
  | [] => []
  | (i, c, w) :: rs' =>
      if nonAlphanumeric_class c then
        if in_match then nonAlphanumeric_replace true s rs' repl
        else repl ++ nonAlphanumeric_replace true s rs' repl
      else
        slice_to (slice_from s i) w ++ nonAlphanumeric_replace false s rs' repl
  end.

Definition nonAlphanumeric_ReplaceAllString (s repl : str) : str :=
  nonAlphanumeric_replace false s (utf8.range s) repl.

Section CaseTables.

Variable To : Z -> Z -> Z.

Definition slugify (s : str) : str :=
  let s := strings.ToLower To s in
  let s := nonAlphanumeric_ReplaceAllString s (lit "-") in
  let s := strings.Trim s "-"%char in
  (* Limit length *)
  if (60 <? length s)%nat then
    let s := slice_to s 60 in
    (* Don't end on a hyphen *)
    strings.TrimRight s "-"%char
  else s.

(** [GenerateName]: [<type>/GH-<issue-number>-<slugified-title>]. *)
Definition GenerateName (issueType : IssueType) (issueNumber : Z) (title : str) : str :=
  let slug := slugify title in
  if 0 <? issueNumber then
    issueType ++ lit "/GH-" ++ strconv.Itoa issueNumber ++ lit "-" ++ slug
  else
    issueType ++ lit "/" ++ slug.

End CaseTables.

End branch.

(** ** Package ghapi (src/internal/ghapi/ghapi.go): the data *)

Module ghapi.

Record Label := { Name : str }.

Record Issue := {
  Number : Z;
  Title : str;
  Body : str;
  Labels : list Label;
  State : str;
  URL : str
}.

Record PullRequest := {
  PR_Number : Z;
  PR_URL : str;
  PR_Title : str
}.

Section Terminal.

Variable TrimFunc_IsSpace : str -> str.
Variable TrimRightFunc_IsSpace : str -> str.

(** What [CreatePR] returns when [gh pr create] has succeeded with the
    output [out]: the URL printed, the number at the end of that URL when
    there is one (the field stays 0 otherwise), and the title. *)
Definition CreatePR_result (title : str) (out : str) : PullRequest :=
  (* gh pr create outputs the PR URL on success *)
  let url := strings.TrimSpace TrimFunc_IsSpace TrimRightFunc_IsSpace out in
  (* Try to extract PR number from URL *)
  let parts := strings.Split url "/"%char in
  let number :=
    if (0 <? length parts)%nat then
      match strconv.Atoi (nth (length parts - 1) parts []) with
      | Some num => num
      | None => 0
      end
    else 0 in
  {| PR_Number := number; PR_URL := url; PR_Title := title |}.

End Terminal.

End ghapi.

(** ** Package git (src/unnamed/part_001): the parsing of the remote URL *)

Module git.

(** The loop of [parseRepoSlug] over the prefixes "https://" and "http://";
    [None] when it ends without a return. *)
Fixpoint parseRepoSlug_prefixes (rawURL : str) (prefixes : list str) : option str :=
  match prefixes with
  | [] => None
  | prefix :: rest =>
      if strings.HasPrefix rawURL prefix then
        let trimmed := strings.TrimPrefix rawURL prefix in
        (* Remove host *)
        match strings.IndexByte trimmed "/"%char with
        | Some idx => Some (slice_from trimmed (idx + 1))
        | None => parseRepoSlug_prefixes rawURL rest
        end
      else parseRepoSlug_prefixes rawURL rest
  end.

(** [parseRepoSlug]; [None] stands for the error "unable to parse repo slug
    from URL". *)
Definition parseRepoSlug (rawURL : str) : option str :=
  let rawURL := strings.TrimSuffix rawURL (lit ".git") in
  (* HTTPS: https://github.com/owner/repo *)
  let https := parseRepoSlug_prefixes rawURL [lit "https://"; lit "http://"] in
  (* SSH: git@github.com:owner/repo *)
  if strings.HasPrefix rawURL (lit "git@") then
    let parts := strings.SplitN2 rawURL ":"%char in
    if (length parts =? 2)%nat then Some (nth 1 parts []) else https
  else https.

End git.

(** ** Package prompt (the first part of src/internal/prompt/prompt.go)

    Each function prints its question and reads one line from the standard
    input.  The printing is left out; the line that [reader.ReadString]
    returns (its error is ignored by the source) is the argument [line]. *)

Module prompt.

Section Terminal.

Variable To : Z -> Z -> Z.
Variable TrimFunc_IsSpace : str -> str.
Variable TrimRightFunc_IsSpace : str -> str.

Definition Confirm (defaultYes : bool) (line : str) : bool :=
  let input :=
    strings.TrimSpace TrimFunc_IsSpace TrimRightFunc_IsSpace
      (strings.ToLower To line) in
  if str_eqb input (lit "") then defaultYes
  else str_eqb input (lit "y") || str_eqb input (lit "yes").

Definition Input (defaultVal : str) (line : str) : str :=
  let input := strings.TrimSpace TrimFunc_IsSpace TrimRightFunc_IsSpace line in
  if str_eqb input (lit "") then defaultVal else input.

(** [Select]: the index of the option chosen; [None] stands for the error
    "invalid selection". *)
Definition Select (options : list str) (line : str) : option nat :=
  let input := strings.TrimSpace TrimFunc_IsSpace TrimRightFunc_IsSpace line in
  match strconv.Atoi input with
  | None => None
  | Some idx =>
      if (idx <? 1) || (Z.of_nat (length options) <? idx) then None
      else Some (Z.to_nat (idx - 1))
  end.

End Terminal.

End prompt.

(** ** Package cmd (src/cmd/create_branch.go, src/cmd/create_pr.go) *)

Module cmd.

(** The longest prefix of [s] whose bytes satisfy [p], and the rest. *)
Fixpoint span (p : ascii -> bool) (s : str) : str * str :=
  match s with
  | [] => ([], [])
  | c :: s' =>
      if p c then let (a, b) := span p s' in (c :: a, b)
      else ([], s)
  end.

(** *** create_branch.go *)

Definition toLower (s : str) : str :=
  map (fun c => if (65 <=? byte_val c) && (byte_val c <=? 90)
                then to_byte (byte_val c + (97 - 65)) else c) s.

Definition contains (s : str) (substrs : list str) : bool :=
  let s := toLower s in
  existsb
    (fun sub =>
       str_eqb s sub
       || (length sub <? length s)%nat
          && (str_eqb (slice_to s (length sub)) sub
              || str_eqb (slice_from s (length s - length sub)) sub))
    substrs.

(** The loop of [inferIssueType] over [issue.Labels]; the empty string is
    the answer when no label decides. *)
Fixpoint inferIssueType_labels (labels : list ghapi.Label) : str :=
  match labels with
  | [] => lit ""
  | label :: rest =>
      let name := ghapi.Name label in
      if contains name [lit "bug"; lit "fix"] then lit "bugfix"
      else if contains name [lit "feature"; lit "enhancement"] then lit "feature"
      else if contains name [lit "hotfix"; lit "urgent"; lit "critical"] then lit "hotfix"
      else if contains name [lit "docs"; lit "documentation"] then lit "docs"
      else if contains name [lit "refactor"] then lit "refactor"
      else if contains name [lit "test"] then lit "test"
      else if contains name [lit "chore"; lit "maintenance"] then lit "chore"
      else inferIssueType_labels rest
  end.

Definition inferIssueType (issue : ghapi.Issue) : str :=
  inferIssueType_labels (ghapi.Labels issue).

(** The step "Determine issue type" of [runCreateBranch], up to the check of
    [ValidIssueType].  [issueType] is the value of the flag [--type] (empty
    when the flag is not given), [useDefaults] the global that [-y] sets,
    and [selected] the answer of [prompt.Select] in case it is called: the
    index chosen, which [Select] keeps within the options, or [None] for its
    error.  [None] is the error return of the command. *)
Definition runCreateBranch_issueType
    (issueType : str) (issue : ghapi.Issue) (useDefaults : bool)
    (selected : option nat) : option str :=
  let issueType :=
    if str_eqb issueType (lit "") then inferIssueType issue else issueType in
  let determined :=
    if str_eqb issueType (lit "") && negb useDefaults then
      let types := branch.AllIssueTypeStrings in
      match selected with
      | None => None
      | Some idx => Some (nth idx types [])
      end
    else if str_eqb issueType (lit "") then Some (lit "feature")
    else Some issueType in
  match determined with
  | None => None
  | Some issueType =>
      if negb (branch.ValidIssueType issueType) then None else Some issueType
  end.

(** *** create_pr.go *)

(** [var issueNumberRegex = regexp.MustCompile(`/GH-(\d+)-`)]: a match that
    starts at the head of [s], as the whole match and the group.  [\d+] is
    greedy and what follows it is not a digit, so the group is the whole run
    of digits; the pattern is ASCII, and an ASCII rune is its byte. *)
Definition issueNumberRegex_match_here (s : str) : option (list str) :=
  match s with
  | "/"%char :: "G"%char :: "H"%char :: "-"%char :: rest =>
      match span is_digit rest with
      | (d :: ds, "-"%char :: _) =>
          Some [lit "/GH-" ++ (d :: ds) ++ lit "-"; d :: ds]
      | _ => None
      end
  | _ => None
  end.

(** The search of [issueNumberRegex.FindStringSubmatch] along the runes of
    the text: the leftmost match, or [nil]. *)
Fixpoint issueNumberRegex_find (s : str) (rs : list (nat * Z * nat)) : list str :=
  match rs with
  | [] => []
  | (i, _, _) :: rs' =>
      match issueNumberRegex_match_here (slice_from s i) with
      | Some m => m
      | None => issueNumberRegex_find s rs'
      end
  end.

Definition issueNumberRegex_FindStringSubmatch (s : str) : list str :=
  issueNumberRegex_find s (utf8.range s).

Definition extractIssueFromBranch (branchName : str) : Z :=
  let matches := issueNumberRegex_FindStringSubmatch branchName in
  if (2 <=? length matches)%nat then
    match strconv.Atoi (nth 1 matches []) with
    | Some num => num
    | None => 0
    end
  else 0.

(** [regexp.MustCompile(`^\d+-`).ReplaceAllString(s, repl)]: the pattern can
    only match at the start of the text. *)
Definition digitsHyphen_ReplaceAllString (s repl : str) : str :=
  match span is_digit s with
  | (_ :: _, "-"%char :: rest) => repl ++ rest
  | _ => s
  end.

Section CaseTables.

Variable To : Z -> Z -> Z.

Definition generateTitleFromBranch (branchName : str) : str :=
  (* Remove type prefix (e.g., "feature/") *)
  let parts := strings.SplitN2 branchName "/"%char in
  let title := if (length parts =? 2)%nat then nth 1 parts [] else branchName in
  (* Remove issue number prefix *)
  let title := digitsHyphen_ReplaceAllString title (lit "") in
  (* Replace hyphens with spaces and capitalize *)
  let title := strings.ReplaceAll title "-"%char " "%char in
  if (0 <? length title)%nat then
    strings.ToUpper To (slice_to title 1) ++ slice_from title 1
  else title.

End CaseTables.

Definition nl : ascii := "010"%char.

Definition generatePRBody (issue : option ghapi.Issue) : str :=
  match issue with
  | Some issue =>
      (lit "## Description" ++ [nl; nl])
      ++ (if negb (str_eqb (ghapi.Body issue) (lit ""))
          then ghapi.Body issue
          else lit "Resolves #" ++ strconv.Itoa (ghapi.Number issue))
      ++ [nl; nl]
      ++ (lit "Closes #" ++ strconv.Itoa (ghapi.Number issue) ++ [nl])
  | None =>
      (lit "## Description" ++ [nl; nl])
      ++ (lit "<!-- Describe your changes here -->" ++ [nl; nl])
      ++ (lit "## Checklist" ++ [nl; nl])
      ++ (lit "- [ ] Tests added/updated" ++ [nl])
      ++ (lit "- [ ] Documentation updated" ++ [nl])
      ++ (lit "- [ ] Code follows project conventions" ++ [nl])
  end.

Section Terminal.

Variable TrimFunc_IsSpace : str -> str.
Variable TrimRightFunc_IsSpace : str -> str.

(** The manual entry of [promptForIssue]: the line typed has to be a number. *)
Definition promptForIssue_manual (line : str) : option Z :=
  let input := prompt.Input TrimFunc_IsSpace TrimRightFunc_IsSpace (lit "") line in
  strconv.Atoi input.

(** [promptForIssue].  [listed] is what [ghapi.ListOpenIssues] returns
    ([None] for its error) and [line] the line read by the one prompt that
    is shown.  The outer [None] is the error return; [Some None] stands for
    an index outside of [issues], where the source would panic. *)
Definition promptForIssue (listed : option (list ghapi.Issue)) (line : str)
  : option (option Z) :=
  match listed with
  | None =>
      (* Fallback to manual input *)
      option_map Some (promptForIssue_manual line)
  | Some issues =>
      if (length issues =? 0)%nat then option_map Some (promptForIssue_manual line)
      else
        let options :=
          map (fun issue =>
                 lit "#" ++ strconv.Itoa (ghapi.Number issue) ++ lit " - "
                 ++ ghapi.Title issue) issues in
        match prompt.Select TrimFunc_IsSpace TrimRightFunc_IsSpace options line with
        | None => None
        | Some idx => Some (option_map ghapi.Number (nth_error issues idx))
        end
  end.

End Terminal.

End cmd.

(** * Vocabulary of the properties *)

(** An excerpt of the Unicode case table, to run the functions on examples:
    the letters of the Latin-1 Supplement, U+0130 (capital I with dot above,
    lower case [i]) and U+212A (Kelvin sign, lower case [k]); every other
    rune is left as it is. *)
Definition To_excerpt (_case r : Z) : Z :=
  if _case =? unicode.LowerCase then
    if ((192 <=? r) && (r <=? 214)) || ((216 <=? r) && (r <=? 222)) then r + 32
    else if r =? 304 then 105
    else if r =? 8490 then 107
    else r
  else if _case =? unicode.UpperCase then
    if ((224 <=? r) && (r <=? 246)) || ((248 <=? r) && (r <=? 254)) then r - 32
    else if r =? 255 then 376
    else r
  else r.

(** [ds] is a decimal numeral of [u]: a non-empty run of digits that
    [parse_digits] reads as [u]. *)
Definition digits_of (u : Z) (ds : str) : Prop :=
  ds <> []
  /\ Forall (fun c => is_digit c = true) ds
  /\ forall a rest,
       strconv.parse_digits a (ds ++ rest)
       = strconv.parse_digits (a * 10 ^ Z.of_nat (length ds) + u) rest.

(** The values of the Go type [rune], an [int32]. *)
Definition int32 (x : Z) : Prop := -2147483648 <= x < 2147483648.

(** Bytes from 0x80 on, and bytes that are not an upper-case ASCII letter. *)
Definition high (c : ascii) : Prop := 128 <= byte_val c.
Definition not_upper (c : ascii) : Prop := is_upper c = false.

(** What the first loop has established when it stops at offset [i], or
    when it runs to the end, over the part [t] of the string that starts at
    offset [i0]: the bytes it went over hold no upper-case ASCII letter. *)
Definition scanned (i0 : nat) (t : str) (res : option (nat * Z * nat)) : Prop :=
  match res with
  | Some (i, _, _) => (i0 <= i)%nat /\ Forall not_upper (firstn (i - i0) t)
  | None => Forall not_upper t
  end.

(** Replacing by bytes: every maximal run of bytes that are not ASCII
    letters or digits becomes [repl].  [in_run] tells that the run the head
    of [s] would continue has been replaced already. *)
Fixpoint replace_bytes (in_run : bool) (s : str) (repl : str) : str :=
  match s with
  | [] => []
  | c :: s' =>
      if is_alnum c then c :: replace_bytes false s' repl
      else if in_run then replace_bytes true s' repl
      else repl ++ replace_bytes true s' repl
  end.

(** The bytes of a slug: lower-case letters, digits and the hyphen. *)
Definition is_lower_alnum (c : ascii) : bool := is_lower c || is_digit c.
Definition slug_char (c : ascii) : bool := is_lower_alnum c || is_hyphen c.

Definition starts_hyphen (s : str) : bool :=
  match s with
  | c :: _ => is_hyphen c
  | [] => false
  end.

Fixpoint ends_hyphen (s : str) : bool :=
  match s with
  | [] => false
  | [c] => is_hyphen c
  | _ :: s' => ends_hyphen s'
  end.

(** No two hyphens in a row. *)
Fixpoint no_double (s : str) : bool :=
  match s with
  | [] => true
  | c :: s' => negb (is_hyphen c && starts_hyphen s') && no_double s'
  end.

(** The invariant of [slugify]'s result. *)
Definition slug_ok (s : str) : Prop :=
  Forall (fun c => slug_char c = true) s
  /\ no_double s = true
  /\ starts_hyphen s = false
  /\ ends_hyphen s = false
  /\ (length s <= 60)%nat.

(** A matcher for the regular expression [^[a-z0-9]+(-[a-z0-9]+)*$] of the
    specification: [need] tells that the next byte has to be a letter or a
    digit (at the start and after a hyphen); the end is accepted after a
    letter or a digit only. *)
Fixpoint slug_re_from (need : bool) (s : str) : bool :=
  match s with
  | [] => negb need
  | c :: s' =>
      if is_lower_alnum c then slug_re_from false s'
      else if is_hyphen c && negb need then slug_re_from true s'
      else false
  end.

Definition matches_slug_re (s : str) : bool := slug_re_from true s.

(** The same language, as the regular expression reads: one run of
    lower-case letters and digits, then any number of times a hyphen and
    another run. *)
Inductive slug_re : str -> Prop :=
| slug_re_run (w : str) :
    w <> [] -> Forall (fun c => is_lower_alnum c = true) w -> slug_re w
| slug_re_sep (w rest : str) :
    w <> [] -> Forall (fun c => is_lower_alnum c = true) w ->
    slug_re rest -> slug_re (w ++ "-"%char :: rest).

(** The search for [/GH-(\d+)-] from every byte of the text. *)
Fixpoint find_bytes (s : str) : list str :=
  match s with
  | [] => []
  | _ :: s' =>
      match cmd.issueNumberRegex_match_here s with
      | Some m => m
      | None => find_bytes s'
      end
  end.

(** A byte other than the slash. *)
Definition no_slash (c : ascii) : Prop := c <> "/"%char.

(** The keyword rules of the issue-type classifier as the specification
    lists them, in its order: the keywords of a rule and the type it maps to. *)
Definition rules : list (list str * str) :=
  [ ([lit "bug"; lit "fix"], lit "bugfix");
    ([lit "feature"; lit "enhancement"], lit "feature");
    ([lit "hotfix"; lit "urgent"; lit "critical"], lit "hotfix");
    ([lit "docs"; lit "documentation"], lit "docs");
    ([lit "refactor"], lit "refactor");
    ([lit "test"], lit "test");
    ([lit "chore"; lit "maintenance"], lit "chore") ].

(** The type of the first rule, in that order, one of whose keywords the
    label name matches. *)
Definition first_rule (name : str) : option str :=
  option_map snd (find (fun rule => cmd.contains name (fst rule)) rules).

(** [sub] occurs somewhere inside of [s]. *)
Definition substring (sub s : str) : Prop :=
  exists pre post, s = pre ++ sub ++ post.

(** The lines of a text, each without its newline. *)
Fixpoint lines_from (cur : str) (s : str) : list str :=
  match s with
  | [] => match cur with [] => [] | _ => [rev cur] end
  | c :: s' =>
      if Ascii.eqb c cmd.nl then rev cur :: lines_from [] s'
      else lines_from (c :: cur) s'
  end.

Definition lines (s : str) : list str := lines_from [] s.

(** [p] is a prefix of [s]. *)
Fixpoint has_prefix (p s : str) : bool :=
  match p, s with
  | [], _ => true
  | c :: p', d :: s' => Ascii.eqb c d && has_prefix p' s'
  | _ :: _, [] => false
  end.

(** An ASCII byte that is not white space. *)
Definition visible (c : ascii) : bool :=
  (byte_val c <? 128) && negb (strings.asciiSpace c).

(** * Properties *)

(** Case analysis on every test of a conditional, and on every comparison
    of integers, of the goal. *)
Ltac destruct_ifs :=
  repeat match goal with
  | |- context [if ?b then _ else _] => destruct b
  end.

Ltac compare_Z :=
  repeat match goal with
  | |- context [?a <=? ?b] => destruct (Z.leb_spec a b)
  | |- context [?a <? ?b] => destruct (Z.ltb_spec a b)
  | |- context [?a =? ?b] => destruct (Z.eqb_spec a b)
  end.

(** ** The examples of the specification *)

Example Itoa_42 : strconv.Itoa 42 = lit "42".
Proof. reflexivity. Qed.
Example Itoa_neg : strconv.Itoa (-305) = lit "-305".
Proof. reflexivity. Qed.
Example Itoa_0 : strconv.Itoa 0 = lit "0".
Proof. reflexivity. Qed.
Example Atoi_42 : strconv.Atoi (lit "42") = Some 42.
Proof. reflexivity. Qed.
Example Atoi_big : strconv.Atoi (lit "9223372036854775808") = None.
Proof. reflexivity. Qed.
Example extract_42 :
  cmd.extractIssueFromBranch (lit "feature/GH-42-add-login-page") = 42.
Proof. reflexivity. Qed.
Example extract_absent : cmd.extractIssueFromBranch (lit "chore/cleanup") = 0.
Proof. reflexivity. Qed.
Example extract_leftmost :
  cmd.extractIssueFromBranch (lit "fix/GH-x-/GH-12-and/GH-34-") = 12.
Proof. reflexivity. Qed.
Example slugify_example :
  branch.slugify To_excerpt (lit "  Fix: crash on start-up (Windows)  ")
  = lit "fix-crash-on-start-up-windows".
Proof. reflexivity. Qed.
Example slugify_empty : branch.slugify To_excerpt (lit "") = lit "".
Proof. reflexivity. Qed.
Example ToLower_latin1 :
  strings.ToLower To_excerpt (lit "ÉTÉ 300K") = lit "été 300k".
Proof. reflexivity. Qed.
Example ToUpper_invalid :
  strings.ToUpper To_excerpt [ascii_of_nat 195] = [ascii_of_nat 239; ascii_of_nat 191; ascii_of_nat 189].
Proof. reflexivity. Qed.


(** ** Bytes *)

Lemma byte_val_range (c : ascii) : 0 <= byte_val c < 256.
Proof.
  unfold byte_val. pose proof (N_ascii_bounded c). lia.
Qed.

Lemma to_byte_val (c : ascii) : to_byte (byte_val c) = c.
Proof.
  unfold to_byte. pose proof (byte_val_range c).
  rewrite Z.mod_small by lia. unfold byte_val.
  rewrite N2Z.id. apply ascii_N_embedding.
Qed.

Lemma byte_val_to_byte (x : Z) : 0 <= x < 256 -> byte_val (to_byte x) = x.
Proof.
  intros Hx. unfold byte_val, to_byte.
  rewrite Z.mod_small by lia.
  rewrite N_ascii_embedding by lia. lia.
Qed.

Lemma byte_val_to_byte_mod (x : Z) : byte_val (to_byte x) = x mod 256.
Proof.
  pose proof (Z.mod_pos_bound x 256 ltac:(lia)).
  unfold byte_val, to_byte. rewrite N_ascii_embedding by lia. lia.
Qed.

Lemma byte_val_inj (c d : ascii) : byte_val c = byte_val d -> c = d.
Proof.
  intros H. rewrite <- (to_byte_val c), <- (to_byte_val d). now rewrite H.
Qed.

Lemma str_eqb_eq (s t : str) : str_eqb s t = true <-> s = t.
Proof.
  revert t. induction s as [|c s IH]; intros [|d t]; simpl; try easy.
  rewrite andb_true_iff, Ascii.eqb_eq, IH. split.
  - now intros [-> ->].
  - intros H. now inversion H.
Qed.

Lemma str_eqb_refl (s : str) : str_eqb s s = true.
Proof. now apply str_eqb_eq. Qed.

Lemma str_eqb_neq (s t : str) : str_eqb s t = false <-> s <> t.
Proof.
  rewrite <- str_eqb_eq. destruct (str_eqb s t); split; congruence.
Qed.

(** ** Decimal numbers: [Atoi] reads back what [Itoa] prints *)

Section Decimal.

Import strconv.

(** A decimal digit as a byte. *)
Lemma digit_byte (d : Z) :
  0 <= d < 10 ->
  is_digit (to_byte (48 + d)) = true /\ byte_val (to_byte (48 + d)) - 48 = d.
Proof.
  intros Hd. unfold is_digit, in_range.
  rewrite byte_val_to_byte by lia. split; [|lia].
  apply andb_true_iff. split; apply Z.leb_le; lia.
Qed.

(** What [formatBits] writes in front of [acc]: a non-empty run of digits
    whose value is [u]. *)
Lemma digits_of_one (u : Z) : 0 <= u < 10 -> digits_of u [to_byte (48 + u)].
Proof.
  intros Hu. destruct (digit_byte u Hu) as [Hd Hv]. repeat split.
  - discriminate.
  - now constructor.
  - intros a rest. cbn [app parse_digits length]. rewrite Hd, Hv.
    change (Z.of_nat 1) with 1. f_equal; lia.
Qed.

Lemma digits_of_snoc (u : Z) (ds : str) :
  0 <= u -> digits_of (u / 10) ds ->
  digits_of u (ds ++ [to_byte (48 + u mod 10)]).
Proof.
  intros Hu (Hne & Hall & Hval).
  destruct (digit_byte (u mod 10)) as [Hd Hv];
    [apply Z.mod_pos_bound; lia|].
  repeat split.
  - intros He. now apply app_eq_nil in He as [_ He].
  - apply Forall_app. split; [exact Hall|]. now constructor.
  - intros a rest. rewrite <- app_assoc, Hval.
    cbn [app parse_digits]. rewrite Hd, Hv. f_equal.
    rewrite length_app. cbn [length].
    replace (Z.of_nat (length ds + 1)) with (Z.of_nat (length ds) + 1) by lia.
    rewrite Z.pow_add_r by lia.
    pose proof (Z.div_mod u 10). lia.
Qed.

(** What [formatBits] writes in front of [acc]: a non-empty run of digits
    whose value is [u]. *)
Lemma formatBits_digits (f : nat) :
  forall u acc, 0 <= u < 2 ^ Z.of_nat (S f) ->
  exists ds, formatBits (S f) u acc = ds ++ acc /\ digits_of u ds.
Proof.
  induction f as [|f IH]; intros u acc Hu; cbn [formatBits].
  - assert (Hlt : (u <? 10) = true).
    { apply Z.ltb_lt. change (2 ^ Z.of_nat 1) with 2 in Hu. lia. }
    rewrite Hlt. exists [to_byte (48 + u)]. split; [reflexivity|].
    apply digits_of_one. apply Z.ltb_lt in Hlt. lia.
  - destruct (Z.ltb_spec u 10) as [Hlt|Hge].
    + exists [to_byte (48 + u)]. split; [reflexivity|].
      apply digits_of_one. lia.
    + assert (Hq : 0 <= u / 10 < 2 ^ Z.of_nat (S f)).
      { split; [apply Z.div_pos; lia|].
        apply Z.div_lt_upper_bound; [lia|].
        replace (Z.of_nat (S (S f))) with (Z.of_nat (S f) + 1) in Hu by lia.
        rewrite Z.pow_add_r in Hu by lia.
        assert (0 < 2 ^ Z.of_nat (S f)) by (apply Z.pow_pos_nonneg; lia).
        change (2 ^ 1) with 2 in Hu. lia. }
      destruct (IH (u / 10) (to_byte (48 + u mod 10) :: acc) Hq)
        as (ds & Heq & Hds).
      exists (ds ++ [to_byte (48 + u mod 10)]). split.
      * change (formatBits (S f) (u / 10) (to_byte (48 + u mod 10) :: acc)
                = (ds ++ [to_byte (48 + u mod 10)]) ++ acc).
        rewrite Heq, <- app_assoc. reflexivity.
      * apply digits_of_snoc; [lia|exact Hds].
Qed.

Lemma digits_fuel_enough (u : Z) :
  0 <= u -> 0 <= u < 2 ^ Z.of_nat (digits_fuel u).
Proof.
  intros Hu. split; [exact Hu|]. unfold digits_fuel.
  destruct (Z.eq_dec u 0) as [->|Hnz].
  - simpl. lia.
  - rewrite Nat2Z.inj_succ, Z2Nat.id by apply Z.log2_nonneg.
    apply Z.log2_spec. lia.
Qed.

(** For [i >= 0], [Itoa i] is a non-empty run of digits whose value is [i]. *)
Lemma Itoa_digits (i : Z) :
  0 <= i ->
  Itoa i <> []
  /\ Forall (fun c => is_digit c = true) (Itoa i)
  /\ parse_digits 0 (Itoa i) = Some i.
Proof.
  intros Hi. unfold Itoa.
  destruct (Z.ltb_spec i 0) as [Hneg|_]; [lia|].
  destruct (formatBits_digits (Z.to_nat (Z.log2 i)) i [] (digits_fuel_enough i Hi))
    as (ds & Heq & Hne & Hall & Hval).
  unfold digits_fuel. rewrite Heq, app_nil_r. repeat split; try easy.
  specialize (Hval 0 []). rewrite app_nil_r in Hval. rewrite Hval.
  cbn [parse_digits]. f_equal; lia.
Qed.

Lemma Atoi_Itoa (i : Z) : 0 <= i <= MaxInt64 -> Atoi (Itoa i) = Some i.
Proof.
  intros Hi. destruct (Itoa_digits i) as (Hne & Hall & Hval); [lia|].
  unfold Atoi. destruct (Itoa i) as [|c s] eqn:E; [easy|].
  inversion Hall as [|? ? Hc _]; subst.
  assert (Hm : Ascii.eqb c "-" = false).
  { apply Ascii.eqb_neq. intros ->. discriminate Hc. }
  assert (Hp : Ascii.eqb c "+" = false).
  { apply Ascii.eqb_neq. intros ->. discriminate Hc. }
  rewrite Hm, Hp. cbn [orb]. cbv iota. rewrite Hval.
  replace ((MinInt64 <=? i) && (i <=? MaxInt64)) with true; [reflexivity|].
  symmetry. apply andb_true_iff. unfold MinInt64, MaxInt64 in *.
  split; apply Z.leb_le; lia.
Qed.

End Decimal.

(** ** UTF-8: ASCII bytes never hide inside an encoding *)

Lemma high_not_upper (c : ascii) : high c -> not_upper c.
Proof.
  unfold high, not_upper, is_upper, in_range. intros H.
  apply andb_false_iff. right. apply Z.leb_gt. lia.
Qed.

Lemma acceptRanges_lo (i : Z) : 128 <= fst (utf8.acceptRanges i).
Proof.
  unfold utf8.acceptRanges, utf8.locb, utf8.hicb.
  destruct_ifs; simpl; lia.
Qed.

Lemma first_not_ascii (s0 : Z) : (utf8.as_ <=? utf8.first s0) = false -> 128 <= s0.
Proof.
  intros H. destruct (Z.ltb_spec s0 128) as [Hlt|Hge]; [|exact Hge].
  unfold utf8.first in H. apply Z.ltb_lt in Hlt. rewrite Hlt in H. discriminate H.
Qed.

(** The three shapes of a decoding step: nothing to read; one byte, which
    is either in error or an ASCII byte standing for itself; or a sequence of
    two to four bytes, none of them ASCII. *)
Lemma DecodeRuneInString_cases (t : str) (c : Z) (w : nat) :
  utf8.DecodeRuneInString t = (c, w) ->
  (t = [] /\ w = 0%nat)
  \/ (w = 1%nat /\ exists b t', t = b :: t'
        /\ ((c = utf8.RuneError /\ high b) \/ (c = byte_val b /\ byte_val b < 128)))
  \/ ((1 < w <= length t)%nat /\ Forall high (firstn w t)).
Proof.
  unfold utf8.DecodeRuneInString.
  destruct t as [|c0 t0]; [intros H; inversion H; now left|].
  destruct (utf8.as_ <=? utf8.first (byte_val c0)) eqn:E0.
  { intros H. right; left. inversion H; subst. split; [reflexivity|].
    exists c0, t0. split; [reflexivity|].
    destruct (Z.eqb_spec (utf8.first (byte_val c0)) utf8.xx) as [Ex|Ex];
      [left|right].
    { split; [reflexivity|]. unfold high.
      destruct (Z.ltb_spec (byte_val c0) 128) as [Hlt|Hge]; [|exact Hge].
      unfold utf8.first in Ex. apply Z.ltb_lt in Hlt. rewrite Hlt in Ex.
      discriminate Ex. }
    split; [reflexivity|].
    unfold utf8.first, utf8.as_, utf8.xx in *.
    destruct (Z.ltb_spec (byte_val c0) 128); [assumption|].
    repeat match type of E0 with context [if ?b then _ else _] =>
      destruct b; try discriminate E0; try (now elim Ex) end. }
  pose proof (first_not_ascii _ E0) as H0.
  pose proof (acceptRanges_lo (Z.shiftr (utf8.first (byte_val c0)) 4)) as Hlo.
  assert (Herr : forall b t', (c0 :: t0 = b :: t') -> (utf8.RuneError, 1%nat) = (c, w) ->
    (c0 :: t0 = [] /\ w = 0%nat)
    \/ (w = 1%nat /\ exists b t', c0 :: t0 = b :: t'
          /\ ((c = utf8.RuneError /\ high b) \/ (c = byte_val b /\ byte_val b < 128)))
    \/ ((1 < w <= length (c0 :: t0))%nat /\ Forall high (firstn w (c0 :: t0)))).
  { intros b t' _ H. inversion H; subst. right; left. split; [reflexivity|].
    exists c0, t0. split; [reflexivity|]. left. now split. }
  destruct (length (c0 :: t0) <? _)%nat; [now apply Herr with c0 t0|].
  destruct t0 as [|c1 t1]; [now apply Herr with c0 []|].
  destruct (_ || _) eqn:E1; [now apply Herr with c0 (c1 :: t1)|].
  apply orb_false_iff in E1 as [E1 _]. apply Z.ltb_ge in E1.
  assert (H1 : high c1) by (unfold high; lia).
  destruct (_ <=? 2)%nat.
  { intros H. inversion H; subst. right; right. split; [simpl; lia|].
    simpl. repeat constructor; assumption. }
  destruct t1 as [|c2 t2]; [now apply Herr with c0 [c1]|].
  destruct (_ || _) eqn:E2; [now apply Herr with c0 (c1 :: c2 :: t2)|].
  apply orb_false_iff in E2 as [E2 _]. apply Z.ltb_ge in E2.
  assert (H2 : high c2) by (unfold high, utf8.locb in *; lia).
  destruct (_ <=? 3)%nat.
  { intros H. inversion H; subst. right; right. split; [simpl; lia|].
    simpl. repeat constructor; assumption. }
  destruct t2 as [|c3 t3]; [now apply Herr with c0 [c1; c2]|].
  destruct (_ || _) eqn:E3; [now apply Herr with c0 (c1 :: c2 :: c3 :: t3)|].
  apply orb_false_iff in E3 as [E3 _]. apply Z.ltb_ge in E3.
  assert (H3 : high c3) by (unfold high, utf8.locb in *; lia).
  intros H. inversion H; subst. right; right. split; [simpl; lia|].
  simpl. repeat constructor; assumption.
Qed.

(** *** The runes the decoder yields *)

Lemma lor_bound (n a b : Z) :
  0 <= a < 2 ^ n -> 0 <= b < 2 ^ n -> 0 <= Z.lor a b < 2 ^ n.
Proof.
  intros Ha Hb.
  assert (Hn : 0 <= n).
  { destruct (Z.leb_spec 0 n); [assumption|]. rewrite Z.pow_neg_r in Ha by lia. lia. }
  split; [apply Z.lor_nonneg; lia|].
  destruct (Z.eq_dec (Z.lor a b) 0) as [->|Hnz]; [lia|].
  assert (0 <= Z.lor a b) by (apply Z.lor_nonneg; lia).
  apply Z.log2_lt_pow2; [lia|].
  rewrite Z.log2_lor by lia.
  assert (Hlog : forall x, 0 <= x < 2 ^ n -> 0 < n -> Z.log2 x < n).
  { intros x Hx Hpos. destruct (Z.eq_dec x 0) as [->|Hx0]; [exact Hpos|].
    apply Z.log2_lt_pow2; lia. }
  destruct (Z.eq_dec n 0) as [->|Hn0].
  - change (2 ^ 0) with 1 in *. assert (a = 0) by lia. assert (b = 0) by lia.
    subst. now elim Hnz.
  - apply Z.max_lub_lt; apply Hlog; lia.
Qed.

Lemma land_ones_bound (a k : Z) : 0 <= k -> 0 <= Z.land a (Z.ones k) < 2 ^ k.
Proof.
  intros Hk. rewrite Z.land_ones by exact Hk. apply Z.mod_pos_bound.
  apply Z.pow_pos_nonneg; lia.
Qed.

Lemma shiftl_bound (x k m : Z) :
  0 <= k -> 0 <= m -> 0 <= x < 2 ^ k -> 0 <= Z.shiftl x m < 2 ^ (k + m).
Proof.
  intros Hk Hm Hx. rewrite Z.shiftl_mul_pow2 by exact Hm.
  rewrite Z.pow_add_r by assumption.
  assert (0 < 2 ^ m) by (apply Z.pow_pos_nonneg; lia). nia.
Qed.

Lemma DecodeRuneInString_range (t : str) (c : Z) (w : nat) :
  utf8.DecodeRuneInString t = (c, w) -> 0 <= c < 2 ^ 21.
Proof.
  assert (Herr : 0 <= utf8.RuneError < 2 ^ 21) by (unfold utf8.RuneError; lia).
  assert (Hx : forall a, 0 <= Z.land a utf8.maskx < 2 ^ 6)
    by (intros a; apply (land_ones_bound a 6); lia).
  assert (H2 : forall a, 0 <= Z.land a utf8.mask2 < 2 ^ 5)
    by (intros a; apply (land_ones_bound a 5); lia).
  assert (H3 : forall a, 0 <= Z.land a utf8.mask3 < 2 ^ 4)
    by (intros a; apply (land_ones_bound a 4); lia).
  assert (H4 : forall a, 0 <= Z.land a utf8.mask4 < 2 ^ 3)
    by (intros a; apply (land_ones_bound a 3); lia).
  assert (Hs : forall x k m, 0 <= k -> 0 <= m -> k + m <= 21 ->
                 0 <= x < 2 ^ k -> 0 <= Z.shiftl x m < 2 ^ 21).
  { intros x k m Hk Hm Hkm Hxk. pose proof (shiftl_bound x k m Hk Hm Hxk) as Hb.
    assert (2 ^ (k + m) <= 2 ^ 21) by (apply Z.pow_le_mono_r; lia). lia. }
  assert (Hl : forall x, 0 <= x < 2 ^ 6 -> 0 <= x < 2 ^ 21) by (intros; lia).
  unfold utf8.DecodeRuneInString.
  destruct t as [|c0 t0]; [intros H; inversion H; subst; exact Herr|].
  pose proof (byte_val_range c0) as Hb0.
  repeat match goal with
  | |- (_, _) = (_, _) -> _ => intros H; inversion H; subst; clear H
  | |- context [if ?b then _ else _] => destruct b
  | |- context [match ?l with [] => _ | _ :: _ => _ end] => destruct l
  end;
  try exact Herr; try lia;
  repeat first
    [ apply lor_bound
    | apply Hl, Hx
    | apply (Hs _ 5 6); [lia|lia|lia|apply H2]
    | apply (Hs _ 4 12); [lia|lia|lia|apply H3]
    | apply (Hs _ 3 18); [lia|lia|lia|apply H4]
    | apply (Hs _ 6 6); [lia|lia|lia|apply Hx]
    | apply (Hs _ 6 12); [lia|lia|lia|apply Hx] ].
Qed.

Lemma DecodeRuneInString_int32 (t : str) (c : Z) (w : nat) :
  utf8.DecodeRuneInString t = (c, w) -> int32 c.
Proof.
  intros H. apply DecodeRuneInString_range in H. unfold int32.
  change (2 ^ 21) with 2097152 in H. lia.
Qed.

Lemma range_from_int32 (t : str) :
  forall skip i, Forall (fun x => int32 (snd (fst x))) (utf8.range_from skip i t).
Proof.
  induction t as [|b t IH]; intros skip i; cbn [utf8.range_from]; [constructor|].
  destruct skip as [|k]; [|apply IH].
  destruct (utf8.DecodeRuneInString (b :: t)) as [c w] eqn:Ed.
  constructor; [|apply IH]. cbn [fst snd].
  exact (DecodeRuneInString_int32 _ _ _ Ed).
Qed.

(** *** A sequence of several bytes is a rune beyond ASCII *)

Lemma lor_ge_l (a b : Z) : 0 <= b -> a <= Z.lor a b.
Proof.
  intros Hb. pose proof (Z.sub_lor_l_same_l b a) as H.
  assert (0 <= Z.land b (Z.lnot a)) by (apply Z.land_nonneg; now left).
  lia.
Qed.

Lemma lor_ge_r (a b : Z) : 0 <= a -> b <= Z.lor a b.
Proof. intros Ha. rewrite Z.lor_comm. now apply lor_ge_l. Qed.

(** A masked and shifted byte, in arithmetic. *)
Lemma mask_shiftl (a k n : Z) :
  0 <= k -> 0 <= n -> Z.shiftl (Z.land a (Z.ones k)) n = (a mod 2 ^ k) * 2 ^ n.
Proof.
  intros Hk Hn. now rewrite Z.shiftl_mul_pow2, Z.land_ones.
Qed.

(** The entries of the table [first] for the first byte of a sequence of
    several bytes. *)
Lemma first_multibyte (s0 : Z) :
  (utf8.as_ <=? utf8.first s0) = false ->
  (194 <= s0 < 224 /\ utf8.first s0 = 2)
  \/ (s0 = 224 /\ utf8.first s0 = 19)
  \/ (225 <= s0 < 240 /\ s0 <> 237 /\ utf8.first s0 = 3)
  \/ (s0 = 237 /\ utf8.first s0 = 35)
  \/ (s0 = 240 /\ utf8.first s0 = 52)
  \/ (241 <= s0 < 244 /\ utf8.first s0 = 4)
  \/ (s0 = 244 /\ utf8.first s0 = 68).
Proof.
  unfold utf8.first, utf8.as_, utf8.xx.
  compare_Z; intros E; try discriminate E; lia.
Qed.

Lemma DecodeRuneInString_multibyte (t : str) (c : Z) (w : nat) :
  utf8.DecodeRuneInString t = (c, w) -> (1 < w)%nat -> 128 <= c.
Proof.
  unfold utf8.DecodeRuneInString.
  destruct t as [|c0 t0]; [intros H; inversion H; lia|].
  pose proof (byte_val_range c0) as Hb0.
  set (s0 := byte_val c0) in *.
  assert (Herr : forall r, (r, 1%nat) = (c, w) -> (1 < w)%nat -> 128 <= c)
    by (intros r H; inversion H; lia).
  destruct (utf8.as_ <=? utf8.first s0) eqn:E0; [apply Herr|].
  assert (Hx : forall a, 0 <= Z.land a utf8.maskx)
    by (intros a; apply Z.land_nonneg; right; unfold utf8.maskx; lia).
  assert (Hsx : forall a n, 0 <= Z.shiftl (Z.land a utf8.maskx) n)
    by (intros a n; apply Z.shiftl_nonneg, Hx).
  assert (Hs : forall a m n, 0 <= m -> 0 <= Z.shiftl (Z.land a m) n)
    by (intros a m n Hm; apply Z.shiftl_nonneg, Z.land_nonneg; now right).
  destruct (first_multibyte s0 E0)
    as [[H0 ->]|[[H0 ->]|[(H0 & H0' & ->)|[[H0 ->]|[[H0 ->]|[[H0 ->]|[H0 ->]]]]]]];
    cbv zeta;
    match goal with
    | |- context [Z.to_nat (Z.land ?x 7)] =>
        let v := eval vm_compute in (Z.to_nat (Z.land x 7)) in
        change (Z.to_nat (Z.land x 7)) with v
    end;
    match goal with
    | |- context [utf8.acceptRanges ?i] =>
        let v := eval vm_compute in (utf8.acceptRanges i) in
        change (utf8.acceptRanges i) with v
    end;
    cbn [fst snd Nat.leb];
    (destruct (length (c0 :: t0) <? _)%nat; [apply Herr|]);
    (destruct t0 as [|c1 t1]; [apply Herr|]);
    pose proof (byte_val_range c1) as Hb1;
    set (s1 := byte_val c1) in *;
    (destruct (_ || _) eqn:E1; [apply Herr|]);
    apply orb_false_iff in E1 as [E1 E1']; apply Z.ltb_ge in E1, E1'.
  - (* two bytes *)
    intros H _. apply (f_equal fst) in H. cbn [fst] in H. rewrite <- H. clear H.
    etransitivity; [|apply lor_ge_l, Hx].
    change utf8.mask2 with (Z.ones 5). rewrite mask_shiftl by lia.
    Z.div_mod_to_equations. lia.
  - (* three bytes, 0xE0 *)
    destruct t1 as [|c2 t2]; [apply Herr|].
    destruct (_ || _); [apply Herr|].
    intros H _. apply (f_equal fst) in H. cbn [fst] in H. rewrite <- H. clear H.
    etransitivity; [|apply lor_ge_l, Hx].
    etransitivity; [|apply lor_ge_r, Hs; unfold utf8.mask3; lia].
    change utf8.maskx with (Z.ones 6). rewrite mask_shiftl by lia.
    Z.div_mod_to_equations. lia.
  - (* three bytes, 0xE1-0xEC and 0xEE-0xEF *)
    destruct t1 as [|c2 t2]; [apply Herr|].
    destruct (_ || _); [apply Herr|].
    intros H _. apply (f_equal fst) in H. cbn [fst] in H. rewrite <- H. clear H.
    etransitivity; [|apply lor_ge_l, Hx].
    etransitivity; [|apply lor_ge_l, Hsx].
    change utf8.mask3 with (Z.ones 4). rewrite mask_shiftl by lia.
    Z.div_mod_to_equations. lia.
  - (* three bytes, 0xED *)
    destruct t1 as [|c2 t2]; [apply Herr|].
    destruct (_ || _); [apply Herr|].
    intros H _. apply (f_equal fst) in H. cbn [fst] in H. rewrite <- H. clear H.
    etransitivity; [|apply lor_ge_l, Hx].
    etransitivity; [|apply lor_ge_l, Hsx].
    change utf8.mask3 with (Z.ones 4). rewrite mask_shiftl by lia.
    Z.div_mod_to_equations. lia.
  - (* four bytes, 0xF0 *)
    destruct t1 as [|c2 t2]; [apply Herr|].
    destruct (_ || _); [apply Herr|].
    destruct t2 as [|c3 t3]; [apply Herr|].
    destruct (_ || _); [apply Herr|].
    intros H _. apply (f_equal fst) in H. cbn [fst] in H. rewrite <- H. clear H.
    etransitivity; [|apply lor_ge_l, Hx].
    etransitivity; [|apply lor_ge_l, Hsx].
    etransitivity; [|apply lor_ge_r, Hs; unfold utf8.mask4; lia].
    change utf8.maskx with (Z.ones 6). rewrite mask_shiftl by lia.
    Z.div_mod_to_equations. lia.
  - (* four bytes, 0xF1-0xF3 *)
    destruct t1 as [|c2 t2]; [apply Herr|].
    destruct (_ || _); [apply Herr|].
    destruct t2 as [|c3 t3]; [apply Herr|].
    destruct (_ || _); [apply Herr|].
    intros H _. apply (f_equal fst) in H. cbn [fst] in H. rewrite <- H. clear H.
    etransitivity; [|apply lor_ge_l, Hx].
    etransitivity; [|apply lor_ge_l, Hsx].
    etransitivity; [|apply lor_ge_l, Hsx].
    change utf8.mask4 with (Z.ones 3). rewrite mask_shiftl by lia.
    Z.div_mod_to_equations. lia.
  - (* four bytes, 0xF4 *)
    destruct t1 as [|c2 t2]; [apply Herr|].
    destruct (_ || _); [apply Herr|].
    destruct t2 as [|c3 t3]; [apply Herr|].
    destruct (_ || _); [apply Herr|].
    intros H _. apply (f_equal fst) in H. cbn [fst] in H. rewrite <- H. clear H.
    etransitivity; [|apply lor_ge_l, Hx].
    etransitivity; [|apply lor_ge_l, Hsx].
    etransitivity; [|apply lor_ge_l, Hsx].
    change utf8.mask4 with (Z.ones 3). rewrite mask_shiftl by lia.
    Z.div_mod_to_equations. lia.
Qed.

(** ** The regular expression [[^a-zA-Z0-9]+] reads runes, and may as well
    read bytes *)

Lemma class_of_byte (b : ascii) :
  branch.nonAlphanumeric_class (byte_val b) = negb (is_alnum b).
Proof. reflexivity. Qed.

Lemma high_not_alnum (b : ascii) : high b -> is_alnum b = false.
Proof.
  unfold high, is_alnum, is_lower, is_upper, is_digit, in_range. intros H.
  repeat (apply orb_false_iff; split); apply andb_false_iff; right;
    apply Z.leb_gt; lia.
Qed.

Lemma class_beyond_ascii (c : Z) : 128 <= c -> branch.nonAlphanumeric_class c = true.
Proof.
  unfold branch.nonAlphanumeric_class. intros H. apply negb_true_iff.
  repeat (apply orb_false_iff; split); apply andb_false_iff; right;
    apply Z.leb_gt; lia.
Qed.

(** Every byte below 0x80 is a rune of its own, and every other byte belongs
    to a rune of the class: the runs of runes of the class are the runs of
    bytes that are not ASCII letters or digits. *)
Lemma nonAlphanumeric_replace_bytes (s repl : str) :
  forall (t : str) (skip i0 : nat) (b : bool),
    t = skipn i0 s ->
    (skip <= length t)%nat ->
    Forall high (firstn skip t) ->
    (skip <> 0%nat -> b = true) ->
    branch.nonAlphanumeric_replace b s (utf8.range_from skip i0 t) repl
    = replace_bytes b t repl.
Proof.
  induction t as [|c0 t IH]; intros skip i0 b Ht Hskip Hhigh Hb;
    cbn [utf8.range_from replace_bytes]; [reflexivity|].
  assert (Ht' : t = skipn (S i0) s).
  { change (S i0) with (1 + i0)%nat. rewrite <- skipn_skipn, <- Ht. reflexivity. }
  destruct skip as [|k].
  - destruct (utf8.DecodeRuneInString (c0 :: t)) as [c w] eqn:Ed.
    cbn [branch.nonAlphanumeric_replace].
    destruct (DecodeRuneInString_cases _ _ _ Ed)
      as [[Hnil _]|[[-> (b' & t' & Hbt & Hc)]|[Hw Hall]]].
    + discriminate Hnil.
    + injection Hbt as <- <-. cbn [Nat.sub].
      pose proof (IH 0%nat (S i0)) as IH0.
      destruct Hc as [[-> Hc]|[-> Hc]].
      * rewrite (high_not_alnum _ Hc).
        change (branch.nonAlphanumeric_class utf8.RuneError) with true. cbv iota.
        rewrite !IH0 by (try assumption; try constructor; cbn [length]; lia).
        reflexivity.
      * rewrite class_of_byte. unfold slice_to, slice_from. rewrite <- Ht.
        cbn [firstn]. destruct (is_alnum c0); cbn [negb app];
          rewrite !IH0 by (try assumption; try constructor; cbn [length]; lia);
          reflexivity.
    + assert (Hc : 128 <= c) by (apply (DecodeRuneInString_multibyte _ _ _ Ed); lia).
      rewrite (class_beyond_ascii c Hc).
      destruct w as [|w]; [lia|]. cbn [firstn length] in *.
      inversion Hall as [|? ? H1 H2].
      rewrite (high_not_alnum _ H1).
      replace (S w - 1)%nat with w by lia.
      rewrite !(IH w (S i0) true) by (try assumption; try reflexivity; lia).
      reflexivity.
  - cbn [firstn length] in *. inversion Hhigh as [|? ? H1 H2].
    rewrite (high_not_alnum _ H1), (Hb ltac:(discriminate)).
    apply IH; try assumption; try reflexivity; lia.
Qed.

Lemma ReplaceAllString_bytes (s repl : str) :
  branch.nonAlphanumeric_ReplaceAllString s repl = replace_bytes false s repl.
Proof.
  unfold branch.nonAlphanumeric_ReplaceAllString, utf8.range.
  apply nonAlphanumeric_replace_bytes;
    [reflexivity|cbn; lia|constructor|intros H; now elim H].
Qed.

(** A byte built as [t | x] with bit 7 set in [t] is not an ASCII byte. *)
Lemma testbit7_high (y : Z) : Z.testbit y 7 = true -> high (to_byte y).
Proof.
  intros H. unfold high. rewrite byte_val_to_byte_mod.
  pose proof (Z.testbit_spec' y 7 ltac:(lia)) as Hs. rewrite H in Hs.
  change (Z.b2z true) with 1 in Hs. change (2 ^ 7) with 128 in Hs.
  change 256 with (128 * 2). rewrite Z.rem_mul_r by lia.
  pose proof (Z.mod_pos_bound y 128). lia.
Qed.

Lemma lor_high (t x : Z) : Z.testbit t 7 = true -> high (to_byte (Z.lor t x)).
Proof.
  intros H. apply testbit7_high. rewrite Z.lor_spec, H. reflexivity.
Qed.

(** The encoding of a rune holds an upper-case ASCII letter only if the rune
    is that letter. *)
Lemma AppendRune_not_upper (r : Z) :
  0 <= r < 4294967296 -> ~ (65 <= r <= 90) ->
  Forall not_upper (utf8.AppendRune r).
Proof.
  intros Hr Hnu. unfold utf8.AppendRune.
  rewrite (Z.mod_small r) by lia.
  destruct (r <=? utf8.rune1Max) eqn:E1.
  { apply Z.leb_le in E1. unfold utf8.rune1Max in E1.
    constructor; [|constructor].
    unfold not_upper, is_upper, in_range. rewrite byte_val_to_byte by lia.
    apply andb_false_iff.
    destruct (Z.leb_spec 65 r); [right; apply Z.leb_gt; lia|now left]. }
  destruct_ifs; repeat constructor; apply high_not_upper, lor_high; reflexivity.
Qed.

(** ** [strings.Map] with a mapping that yields no upper-case ASCII letter *)

Section MapNoUpper.

Variable mapping : Z -> Z.
Hypothesis mapping_not_upper : forall c, int32 c -> ~ (65 <= mapping c <= 90).
Hypothesis mapping_rune : forall c, int32 c -> int32 (mapping c).

Lemma Map_write_not_upper (c : Z) :
  int32 c -> Forall not_upper (strings.Map_write mapping c).
Proof.
  intros Hc. unfold strings.Map_write.
  destruct (Z.leb_spec 0 (mapping c)) as [Hpos|_]; [|constructor].
  pose proof (mapping_not_upper c Hc) as Hnu.
  pose proof (mapping_rune c Hc) as Hr. unfold int32 in Hr.
  destruct (Z.ltb_spec (mapping c) utf8.RuneSelf) as [Hlt|_].
  - unfold utf8.RuneSelf in Hlt. constructor; [|constructor].
    unfold not_upper, is_upper, in_range. rewrite byte_val_to_byte by lia.
    apply andb_false_iff.
    destruct (Z.leb_spec 65 (mapping c)); [right; apply Z.leb_gt; lia|now left].
  - apply AppendRune_not_upper; [lia|exact Hnu].
Qed.

Lemma Map_scan_result (s : str) (rs : list (nat * Z * nat)) i r w :
  Forall (fun x => int32 (snd (fst x))) rs ->
  strings.Map_scan mapping s rs = Some (i, r, w) ->
  exists c, int32 c /\ r = mapping c.
Proof.
  induction 1 as [|[[j c] wc] rs Hc _ IH]; cbn [strings.Map_scan]; [discriminate|].
  cbn [fst snd] in Hc.
  destruct (_ && _); [exact IH|].
  destruct (c =? utf8.RuneError).
  - destruct (utf8.DecodeRuneInString _) as [c' width].
    destruct (_ && _); [exact IH|].
    intros H. inversion H. now exists c.
  - intros H. inversion H. now exists c.
Qed.

Lemma scanned_cons (i0 : nat) (b : ascii) (t : str) res :
  not_upper b -> scanned (S i0) t res -> scanned i0 (b :: t) res.
Proof.
  intros Hb. destruct res as [[[i r] w]|]; cbn [scanned].
  - intros [Hle Hall]. split; [lia|].
    replace (i - i0)%nat with (S (i - S i0)) by lia.
    cbn [firstn]. now constructor.
  - intros Hall. now constructor.
Qed.

(** An upper-case ASCII letter is a rune of its own and the mapping changes
    it, so the loop does not go past one. *)
Lemma Map_scan_scanned (s : str) :
  forall (t : str) (skip i0 : nat),
    t = skipn i0 s ->
    (skip <= length t)%nat ->
    Forall high (firstn skip t) ->
    scanned i0 t (strings.Map_scan mapping s (utf8.range_from skip i0 t)).
Proof.
  induction t as [|b t IH]; intros skip i0 Ht Hskip Hhigh; cbn [utf8.range_from].
  - constructor.
  - assert (Ht' : t = skipn (S i0) s).
    { change (S i0) with (1 + i0)%nat. rewrite <- skipn_skipn, <- Ht. reflexivity. }
    destruct skip as [|k].
    + destruct (utf8.DecodeRuneInString (b :: t)) as [c wc] eqn:Ed.
      cbn [strings.Map_scan].
      assert (Hnext : (wc - 1 <= length t)%nat /\ Forall high (firstn (wc - 1) t)
                      /\ ((1 < wc)%nat -> high b)
                      /\ (wc <> 1%nat -> (1 < wc)%nat)
                      /\ (wc = 1%nat -> c <> utf8.RuneError ->
                          c = byte_val b /\ byte_val b < 128)).
      { destruct (DecodeRuneInString_cases _ _ _ Ed)
          as [[Hnil _]|[[-> (b' & t' & Hbt & Hc)]|[Hw Hall]]].
        - discriminate Hnil.
        - inversion Hbt; subst. cbn [Nat.sub firstn].
          split; [lia|]. split; [constructor|]. split; [lia|]. split; [lia|].
          intros _ Hne. destruct Hc as [[Hc _]|Hc]; [contradiction|exact Hc].
        - destruct wc as [|wc]; [lia|]. cbn [firstn length] in *.
          inversion Hall as [|? ? H1 H2].
          replace (S wc - 1)%nat with wc by lia.
          split; [lia|]. split; [exact H2|]. split; [intros _; exact H1|].
          split; lia. }
      destruct Hnext as (Hlen & Hcont & Hb1 & Hw1 & Hb2).
      pose proof (IH (wc - 1)%nat (S i0) Ht' Hlen Hcont) as Hrest.
      assert (Hstop : forall w', scanned i0 (b :: t) (Some (i0, mapping c, w'))).
      { intros w'. cbn [scanned]. split; [lia|].
        rewrite Nat.sub_diag. constructor. }
      destruct ((mapping c =? c) && negb (c =? utf8.RuneError)) eqn:Eskip.
      * apply scanned_cons; [|exact Hrest].
        apply andb_true_iff in Eskip as [Em Ene].
        apply Z.eqb_eq in Em. apply negb_true_iff, Z.eqb_neq in Ene.
        destruct (Nat.eq_dec wc 1) as [Hw|Hw].
        -- destruct (Hb2 Hw Ene) as [Hc Hlt].
           unfold not_upper, is_upper, in_range. apply andb_false_iff.
           pose proof (mapping_not_upper c (DecodeRuneInString_int32 _ _ _ Ed)) as Hnu.
           rewrite Em, Hc in Hnu.
           destruct (Z.leb_spec 65 (byte_val b));
             [right; apply Z.leb_gt; lia|now left].
        -- apply high_not_upper, Hb1, Hw1, Hw.
      * destruct (c =? utf8.RuneError); [|apply Hstop].
        unfold slice_from. rewrite <- Ht, Ed.
        destruct (negb (wc =? 1)%nat && (mapping c =? c)) eqn:Eskip2; [|apply Hstop].
        apply scanned_cons; [|exact Hrest].
        apply andb_true_iff in Eskip2 as [Ew _].
        apply negb_true_iff, Nat.eqb_neq in Ew.
        apply high_not_upper, Hb1, Hw1, Ew.
    + cbn [firstn length] in *. inversion Hhigh as [|? ? H1 H2].
      apply scanned_cons; [now apply high_not_upper|].
      apply IH; [exact Ht'|lia|exact H2].
Qed.

Lemma Map_not_upper (s : str) : Forall not_upper (strings.Map mapping s).
Proof.
  pose proof (Map_scan_scanned s s 0%nat 0%nat eq_refl ltac:(lia) ltac:(constructor))
    as Hsc.
  unfold strings.Map, utf8.range.
  destruct (strings.Map_scan mapping s (utf8.range_from 0 0 s)) as [[[i r] w]|] eqn:Es;
    cbn [scanned] in Hsc; [|exact Hsc].
  destruct Hsc as [_ Hpre]. rewrite Nat.sub_0_r in Hpre.
  destruct (Map_scan_result _ _ _ _ _ (range_from_int32 s 0%nat 0%nat) Es)
    as (c & Hc & ->).
  apply Forall_app. split; [exact Hpre|]. apply Forall_app. split.
  - destruct (Z.leb_spec 0 (mapping c)); [|constructor].
    apply AppendRune_not_upper; [|now apply mapping_not_upper].
    pose proof (mapping_rune c Hc) as Hr. unfold int32 in Hr. lia.
  - apply Forall_flat_map.
    eapply Forall_impl; [|apply range_from_int32].
    intros x Hx. now apply Map_write_not_upper.
Qed.

End MapNoUpper.

(** ** Trimming and truncating keep the shape of a slug *)

Lemma no_double_app_l (p k : str) : no_double (p ++ k) = true -> no_double p = true.
Proof.
  induction p as [|c p IH]; [reflexivity|]. cbn [app no_double].
  intros H. apply andb_true_iff in H as [Hc Hp].
  apply andb_true_iff. split; [|now apply IH].
  destruct p as [|d p]; [|exact Hc].
  cbn [starts_hyphen]. now rewrite andb_false_r.
Qed.

Lemma no_double_app_r (k t : str) : no_double (k ++ t) = true -> no_double t = true.
Proof.
  induction k as [|c k IH]; [easy|]. cbn [app no_double].
  intros H. apply andb_true_iff in H as [_ Hk]. now apply IH.
Qed.

Lemma ends_hyphen_app_r (k t : str) : t <> [] -> ends_hyphen (k ++ t) = ends_hyphen t.
Proof.
  intros Ht. induction k as [|c k IH]; [reflexivity|].
  cbn [app]. destruct (k ++ t) eqn:E.
  - apply app_eq_nil in E as [_ E]. contradiction.
  - rewrite <- IH. reflexivity.
Qed.

Lemma TrimRight_prefix (s : str) (cut : ascii) :
  exists k, s = strings.TrimRight s cut ++ k.
Proof.
  induction s as [|c s [k IH]]; [now exists []|].
  cbn [strings.TrimRight]. destruct (strings.TrimRight s cut) as [|d t].
  - destruct (Ascii.eqb c cut).
    + now exists (c :: s).
    + exists k. cbn [app] in *. now rewrite <- IH.
  - exists k. cbn [app] in *. now rewrite <- IH.
Qed.

Lemma TrimRight_ends (s : str) : ends_hyphen (strings.TrimRight s "-") = false.
Proof.
  induction s as [|c s IH]; [reflexivity|].
  cbn [strings.TrimRight]. destruct (strings.TrimRight s "-") as [|d t].
  - fold (is_hyphen c). destruct (is_hyphen c) eqn:E; [reflexivity|].
    cbn [ends_hyphen]. exact E.
  - exact IH.
Qed.

Lemma TrimRight_id (s : str) : ends_hyphen s = false -> strings.TrimRight s "-" = s.
Proof.
  induction s as [|c s IH]; [reflexivity|].
  cbn [strings.TrimRight]. destruct s as [|d s].
  - cbn [ends_hyphen strings.TrimRight]. unfold is_hyphen. now intros ->.
  - intros H. rewrite IH by exact H. reflexivity.
Qed.

Lemma TrimLeft_suffix (s : str) (cut : ascii) :
  exists k, s = k ++ strings.TrimLeft s cut.
Proof.
  induction s as [|c s [k IH]]; [now exists []|].
  cbn [strings.TrimLeft]. destruct (Ascii.eqb c cut).
  - exists (c :: k). cbn [app]. now rewrite <- IH.
  - now exists [].
Qed.

Lemma TrimLeft_starts (s : str) : starts_hyphen (strings.TrimLeft s "-") = false.
Proof.
  induction s as [|c s IH]; [reflexivity|].
  cbn [strings.TrimLeft]. fold (is_hyphen c). destruct (is_hyphen c) eqn:E.
  - exact IH.
  - exact E.
Qed.

Lemma TrimLeft_id (s : str) : starts_hyphen s = false -> strings.TrimLeft s "-" = s.
Proof.
  destruct s as [|c s]; [reflexivity|].
  cbn [starts_hyphen strings.TrimLeft]. unfold is_hyphen. now intros ->.
Qed.

Lemma starts_hyphen_prefix (p k : str) :
  starts_hyphen (p ++ k) = false -> starts_hyphen p = false.
Proof. destruct p; [reflexivity|exact (fun H => H)]. Qed.

Lemma ends_hyphen_suffix (k t : str) :
  ends_hyphen (k ++ t) = false -> ends_hyphen t = false.
Proof.
  destruct t as [|c t]; [reflexivity|].
  now rewrite ends_hyphen_app_r.
Qed.

(** ** Replacing the runs outside of [[a-zA-Z0-9]] by a hyphen *)

Lemma alnum_not_upper (c : ascii) :
  is_alnum c = true -> not_upper c -> is_lower_alnum c = true.
Proof.
  unfold is_alnum, not_upper, is_lower_alnum. intros H Hu.
  rewrite Hu, orb_false_r in H. exact H.
Qed.

Lemma lower_alnum_not_hyphen (c : ascii) :
  is_lower_alnum c = true -> is_hyphen c = false.
Proof.
  intros H. unfold is_hyphen. apply Ascii.eqb_neq. intros ->. discriminate H.
Qed.

Lemma alnum_not_hyphen (c : ascii) : is_alnum c = true -> is_hyphen c = false.
Proof.
  intros H. unfold is_hyphen. apply Ascii.eqb_neq. intros ->. discriminate H.
Qed.

Lemma replace_slug_chars (s : str) :
  Forall not_upper s ->
  forall b, Forall (fun c => slug_char c = true)
                   (replace_bytes b s (lit "-")).
Proof.
  induction 1 as [|c s Hc _ IH]; intros b; cbn [replace_bytes].
  - constructor.
  - destruct (is_alnum c) eqn:Ea.
    + constructor; [|apply IH]. unfold slug_char.
      now rewrite (alnum_not_upper c Ea Hc).
    + destruct b; [apply IH|]. constructor; [reflexivity|apply IH].
Qed.

Lemma replace_no_double (s : str) :
  forall b,
    no_double (replace_bytes b s (lit "-")) = true
    /\ (b = true ->
        starts_hyphen (replace_bytes b s (lit "-")) = false).
Proof.
  induction s as [|c s IH]; intros b; cbn [replace_bytes].
  - now split.
  - destruct (is_alnum c) eqn:Ea.
    + destruct (IH false) as [Hnd _]. split.
      * cbn [no_double]. rewrite (alnum_not_hyphen c Ea). exact Hnd.
      * intros _. cbn [starts_hyphen]. now apply alnum_not_hyphen.
    + destruct (IH true) as [Hnd Hst]. destruct b.
      * split; [exact Hnd|exact Hst].
      * split; [|discriminate]. change (lit "-") with ["-"%char] in *.
        cbn [app no_double]. rewrite (Hst eq_refl), andb_false_r. exact Hnd.
Qed.

(** A string that has the shape of a slug already is left as it is. *)
Lemma replace_id (s : str) :
  Forall (fun c => slug_char c = true) s -> no_double s = true ->
  forall b, (b = true -> starts_hyphen s = false) ->
  replace_bytes b s (lit "-") = s.
Proof.
  induction 1 as [|c s Hc _ IH]; intros Hnd b Hb; [reflexivity|].
  cbn [replace_bytes]. cbn [no_double] in Hnd.
  apply andb_true_iff in Hnd as [Hcd Hnd].
  unfold slug_char in Hc. apply orb_true_iff in Hc as [Hc|Hc].
  - assert (Ea : is_alnum c = true).
    { unfold is_alnum. unfold is_lower_alnum in Hc.
      destruct (is_lower c); [reflexivity|]. cbn [orb] in *.
      rewrite Hc. apply orb_true_r. }
    rewrite Ea. f_equal. apply IH; [exact Hnd|discriminate].
  - assert (Ea : is_alnum c = false).
    { destruct (is_alnum c) eqn:E; [|reflexivity].
      rewrite (alnum_not_hyphen c E) in Hc. discriminate Hc. }
    rewrite Ea. destruct b.
    + cbn [starts_hyphen] in Hb. rewrite Hb in Hc by reflexivity. discriminate Hc.
    + assert (c = "-"%char) as -> by (now apply Ascii.eqb_eq).
      change (lit "-") with ["-"%char] in *. cbn [app]. f_equal.
      apply IH; [exact Hnd|]. intros _.
      rewrite Hc in Hcd. cbn [andb] in Hcd. now apply negb_true_iff in Hcd.
Qed.

(** ** The shape of a slug is the regular expression of the specification *)

Lemma slug_ok_matches_aux (s : str) :
  Forall (fun c => slug_char c = true) s -> no_double s = true ->
  ends_hyphen s = false ->
  slug_re_from false s = true
  /\ (s <> [] -> starts_hyphen s = false -> slug_re_from true s = true).
Proof.
  induction 1 as [|c s Hc _ IH]; intros Hnd He; [now split|].
  cbn [no_double] in Hnd. apply andb_true_iff in Hnd as [Hcd Hnd].
  assert (He' : ends_hyphen s = false) by (destruct s; [reflexivity|exact He]).
  destruct (IH Hnd He') as [IH1 IH2].
  cbn [slug_re_from]. unfold slug_char in Hc.
  destruct (is_lower_alnum c) eqn:El; [now split|].
  cbn [orb] in Hc. rewrite Hc. cbn [andb negb]. split.
  - destruct s as [|d s].
    + cbn [ends_hyphen] in He. congruence.
    + apply IH2; [discriminate|].
      rewrite Hc in Hcd. cbn [andb] in Hcd. now apply negb_true_iff in Hcd.
  - intros _ Hst. cbn [starts_hyphen] in Hst. congruence.
Qed.

Lemma slug_ok_matches (s : str) : slug_ok s -> s <> [] -> matches_slug_re s = true.
Proof.
  intros (Hall & Hnd & Hst & He & _) Hne.
  now apply slug_ok_matches_aux.
Qed.

(** ** The matcher and the regular expression agree *)

Lemma slug_re_from_run (w k : str) (need : bool) :
  w <> [] -> Forall (fun c => is_lower_alnum c = true) w ->
  slug_re_from need (w ++ k) = slug_re_from false k.
Proof.
  intros Hne Hall. revert need Hne.
  induction Hall as [|c w Hc _ IH]; intros need Hne; [contradiction|].
  cbn [app slug_re_from]. rewrite Hc.
  destruct w as [|d w]; [reflexivity|]. apply IH. discriminate.
Qed.

Lemma slug_re_matches (s : str) : slug_re s -> matches_slug_re s = true.
Proof.
  unfold matches_slug_re. induction 1 as [w Hne Hall|w rest Hne Hall _ IH].
  - rewrite <- (app_nil_r w). now rewrite slug_re_from_run.
  - rewrite slug_re_from_run by assumption. exact IH.
Qed.

Lemma matches_slug_re_sound_aux (s : str) :
  (slug_re_from true s = true -> slug_re s)
  /\ (slug_re_from false s = true ->
      forall w, w <> [] -> Forall (fun c => is_lower_alnum c = true) w ->
                slug_re (w ++ s)).
Proof.
  induction s as [|c s [IHt IHf]]; cbn [slug_re_from].
  - split; [discriminate|]. intros _ w Hne Hall. rewrite app_nil_r.
    now apply slug_re_run.
  - destruct (is_lower_alnum c) eqn:Ec.
    + split.
      * intros H. apply (IHf H [c]); [discriminate|now constructor].
      * intros H w Hne Hall.
        change (w ++ c :: s) with (w ++ [c] ++ s). rewrite app_assoc.
        apply (IHf H).
        -- intros E. now apply app_eq_nil in E as [_ E].
        -- apply Forall_app. split; [exact Hall|now constructor].
    + split; [rewrite andb_false_r; discriminate|].
      rewrite andb_true_r. destruct (is_hyphen c) eqn:Eh; [|discriminate].
      apply Ascii.eqb_eq in Eh. subst c.
      intros H w Hne Hall. apply slug_re_sep; [assumption..|now apply IHt].
Qed.

Lemma matches_slug_re_iff (s : str) : matches_slug_re s = true <-> slug_re s.
Proof.
  split; [apply matches_slug_re_sound_aux|apply slug_re_matches].
Qed.

(** ** Finding [/GH-<digits>-] in a branch name *)

Lemma span_digits (ds rest : str) :
  Forall (fun c => is_digit c = true) ds ->
  (forall c rest', rest = c :: rest' -> is_digit c = false) ->
  cmd.span is_digit (ds ++ rest) = (ds, rest).
Proof.
  intros Hds Hrest. induction Hds as [|d ds Hd _ IH]; cbn [app cmd.span].
  - destruct rest as [|c rest']; [reflexivity|].
    cbn [cmd.span]. now rewrite (Hrest c rest' eq_refl).
  - now rewrite Hd, IH.
Qed.

Lemma match_here_no_slash (c : ascii) (s : str) :
  no_slash c -> cmd.issueNumberRegex_match_here (c :: s) = None.
Proof.
  intros Hc. unfold cmd.issueNumberRegex_match_here.
  destruct c as [[] [] [] [] [] [] [] []]; try reflexivity. now elim Hc.
Qed.

Lemma find_bytes_skip (t s : str) :
  Forall no_slash t -> find_bytes (t ++ s) = find_bytes s.
Proof.
  induction 1 as [|c t Hc _ IH]; [reflexivity|].
  cbn [app find_bytes].
  now rewrite (match_here_no_slash c (t ++ s) Hc).
Qed.

Lemma high_no_slash (c : ascii) : high c -> no_slash c.
Proof. intros H ->. unfold high in H. vm_compute in H. now apply H. Qed.

(** A match starts with a slash, an ASCII byte and so a rune of its own:
    searching from every rune is searching from every byte. *)
Lemma issueNumberRegex_find_bytes (s : str) :
  forall (t : str) (skip i0 : nat),
    t = skipn i0 s ->
    (skip <= length t)%nat ->
    Forall high (firstn skip t) ->
    cmd.issueNumberRegex_find s (utf8.range_from skip i0 t) = find_bytes t.
Proof.
  induction t as [|c0 t IH]; intros skip i0 Ht Hskip Hhigh;
    cbn [utf8.range_from find_bytes]; [reflexivity|].
  assert (Ht' : t = skipn (S i0) s).
  { change (S i0) with (1 + i0)%nat. rewrite <- skipn_skipn, <- Ht. reflexivity. }
  destruct skip as [|k].
  - destruct (utf8.DecodeRuneInString (c0 :: t)) as [c w] eqn:Ed.
    cbn [cmd.issueNumberRegex_find]. unfold slice_from. rewrite <- Ht.
    destruct (cmd.issueNumberRegex_match_here (c0 :: t)); [reflexivity|].
    apply IH; [exact Ht'| |].
    + destruct (DecodeRuneInString_cases _ _ _ Ed)
        as [[Hnil _]|[[-> _]|[Hw _]]];
        [discriminate Hnil|cbn; lia|cbn [length] in Hw; lia].
    + destruct (DecodeRuneInString_cases _ _ _ Ed)
        as [[Hnil _]|[[-> _]|[Hw Hall]]];
        [discriminate Hnil|constructor|].
      destruct w as [|w]; [lia|]. cbn [firstn] in Hall.
      inversion Hall as [|? ? H1 H2].
      now replace (S w - 1)%nat with w by lia.
  - cbn [firstn length] in *. inversion Hhigh as [|? ? H1 H2].
    rewrite (match_here_no_slash c0 t (high_no_slash c0 H1)).
    apply IH; [exact Ht'|lia|exact H2].
Qed.

Lemma FindStringSubmatch_bytes (s : str) :
  cmd.issueNumberRegex_FindStringSubmatch s = find_bytes s.
Proof.
  unfold cmd.issueNumberRegex_FindStringSubmatch, utf8.range.
  apply issueNumberRegex_find_bytes; [reflexivity|cbn; lia|constructor].
Qed.

Lemma Find_skip (t s : str) :
  Forall no_slash t ->
  cmd.issueNumberRegex_FindStringSubmatch (t ++ s)
  = cmd.issueNumberRegex_FindStringSubmatch s.
Proof.
  intros H. rewrite !FindStringSubmatch_bytes. now apply find_bytes_skip.
Qed.

Lemma Find_none (s : str) :
  Forall no_slash s -> cmd.issueNumberRegex_FindStringSubmatch s = [].
Proof.
  intros H. rewrite FindStringSubmatch_bytes, <- (app_nil_r s).
  now rewrite find_bytes_skip.
Qed.

Lemma Find_here (s : str) (m : list str) :
  cmd.issueNumberRegex_match_here s = Some m ->
  cmd.issueNumberRegex_FindStringSubmatch s = m.
Proof.
  intros H. rewrite FindStringSubmatch_bytes.
  destruct s as [|c s]; [discriminate H|].
  cbn [find_bytes]. now rewrite H.
Qed.

Lemma Find_here_none (c : ascii) (s : str) :
  cmd.issueNumberRegex_match_here (c :: s) = None ->
  cmd.issueNumberRegex_FindStringSubmatch (c :: s)
  = cmd.issueNumberRegex_FindStringSubmatch s.
Proof.
  intros H. rewrite !FindStringSubmatch_bytes.
  cbn [find_bytes]. now rewrite H.
Qed.

Lemma Find_issue (ds rest : str) :
  ds <> [] -> Forall (fun c => is_digit c = true) ds ->
  cmd.issueNumberRegex_FindStringSubmatch (lit "/GH-" ++ ds ++ lit "-" ++ rest)
  = [lit "/GH-" ++ ds ++ lit "-"; ds].
Proof.
  intros Hne Hds. apply Find_here.
  change (lit "/GH-" ++ ds ++ lit "-" ++ rest)
    with ("/"%char :: "G"%char :: "H"%char :: "-"%char :: ds ++ "-"%char :: rest).
  cbn [cmd.issueNumberRegex_match_here].
  rewrite span_digits; [|exact Hds|intros c r E; now inversion E].
  destruct ds as [|d ds]; [contradiction|]. reflexivity.
Qed.

Lemma ValidIssueType_In (t : str) :
  branch.ValidIssueType t = true -> In t branch.AllIssueTypes.
Proof.
  unfold branch.ValidIssueType. intros H.
  apply existsb_exists in H as (x & Hx & E).
  apply str_eqb_eq in E. now subst.
Qed.

Lemma ValidIssueType_no_slash (t : str) :
  branch.ValidIssueType t = true -> Forall no_slash t.
Proof.
  intros H. apply ValidIssueType_In in H.
  repeat (destruct H as [<-|H]; [repeat constructor; discriminate|]).
  destruct H.
Qed.

Lemma slug_char_no_slash (c : ascii) : slug_char c = true -> no_slash c.
Proof. intros H ->. discriminate H. Qed.

(** ** [strings.ToLower] and [slugify] *)

Lemma slug_char_ascii_lower (c : ascii) :
  slug_char c = true -> is_ascii c = true /\ is_upper c = false.
Proof.
  unfold slug_char, is_lower_alnum, is_lower, is_digit, is_hyphen, is_ascii,
    is_upper, in_range.
  intros H. repeat (apply orb_true_iff in H as [H|H]).
  - apply andb_true_iff in H as [H1 H2]. apply Z.leb_le in H1, H2. split.
    + apply Z.ltb_lt. lia.
    + apply andb_false_iff. right. apply Z.leb_gt. lia.
  - apply andb_true_iff in H as [H1 H2]. apply Z.leb_le in H1, H2. split.
    + apply Z.ltb_lt. lia.
    + apply andb_false_iff. left. apply Z.leb_gt. lia.
  - apply Ascii.eqb_eq in H. subst c. now split.
Qed.

(** [strings.ToLower] leaves a string of slug characters as it is, whatever
    the case table. *)
Lemma ToLower_id (To : Z -> Z -> Z) (s : str) :
  Forall (fun c => slug_char c = true) s -> strings.ToLower To s = s.
Proof.
  intros H. unfold strings.ToLower.
  assert (Ha : forallb is_ascii s = true).
  { apply forallb_forall. rewrite Forall_forall in H.
    intros c Hc. now apply slug_char_ascii_lower, H. }
  assert (Hu : existsb is_upper s = false).
  { induction H as [|c s Hc _ IH]; [reflexivity|]. cbn [existsb].
    cbn [forallb] in Ha. apply andb_true_iff in Ha as [_ Ha].
    destruct (slug_char_ascii_lower c Hc) as [_ ->]. now apply IH. }
  now rewrite Ha, Hu.
Qed.

(** A string with the shape of a slug is a fixed point of [slugify]. *)
Lemma slugify_fixed (To : Z -> Z -> Z) (s : str) :
  slug_ok s -> branch.slugify To s = s.
Proof.
  intros (Hall & Hnd & Hst & He & Hlen). unfold branch.slugify.
  rewrite (ToLower_id To s Hall), ReplaceAllString_bytes.
  rewrite (replace_id s Hall Hnd false) by discriminate.
  unfold strings.Trim. rewrite (TrimRight_id s He), (TrimLeft_id s Hst).
  destruct (Nat.ltb_spec 60 (length s)); [lia|reflexivity].
Qed.

Section Slugify.

Variable To : Z -> Z -> Z.

(** The case table maps runes to runes, and no rune beyond ASCII has an
    upper-case ASCII letter as its lower case. *)
Hypothesis To_rune : forall _case r, int32 r -> int32 (To _case r).
Hypothesis To_lower_not_upper :
  forall r, int32 r -> unicode.MaxASCII < r ->
            ~ (65 <= To unicode.LowerCase r <= 90).

Lemma unicode_ToLower_not_upper (c : Z) :
  int32 c -> ~ (65 <= unicode.ToLower To c <= 90).
Proof.
  intros Hc. unfold unicode.ToLower.
  destruct (Z.leb_spec c unicode.MaxASCII) as [Hle|Hgt].
  - destruct ((65 <=? c) && (c <=? 90)) eqn:E.
    + apply andb_true_iff in E as [E1 E2]. apply Z.leb_le in E1, E2. lia.
    + apply andb_false_iff in E as [E|E]; apply Z.leb_gt in E; lia.
  - now apply To_lower_not_upper.
Qed.

Lemma unicode_ToLower_rune (c : Z) : int32 c -> int32 (unicode.ToLower To c).
Proof.
  intros Hc. unfold unicode.ToLower.
  destruct (Z.leb_spec c unicode.MaxASCII) as [Hle|Hgt]; [|now apply To_rune].
  unfold int32, unicode.MaxASCII in *.
  destruct ((65 <=? c) && (c <=? 90)); lia.
Qed.

Lemma ToLower_not_upper (s : str) : Forall not_upper (strings.ToLower To s).
Proof.
  unfold strings.ToLower. destruct (forallb is_ascii s).
  - destruct (existsb is_upper s) eqn:Eu.
    + apply Forall_map, Forall_forall. intros c _.
      destruct (is_upper c) eqn:Ec; [|exact Ec].
      unfold not_upper, is_upper, in_range in *.
      apply andb_true_iff in Ec as [E1 E2]. apply Z.leb_le in E1, E2.
      rewrite byte_val_to_byte by lia.
      apply andb_false_iff. right. apply Z.leb_gt. lia.
    + apply Forall_forall. intros c Hc. unfold not_upper.
      destruct (is_upper c) eqn:Ec; [|reflexivity].
      assert (existsb is_upper s = true) by (apply existsb_exists; eauto).
      congruence.
  - apply Map_not_upper.
    + exact unicode_ToLower_not_upper.
    + exact unicode_ToLower_rune.
Qed.

(** The invariant of [slugify]. *)
Lemma slugify_ok (s : str) : slug_ok (branch.slugify To s).
Proof.
  unfold branch.slugify, strings.Trim. rewrite ReplaceAllString_bytes.
  set (r := replace_bytes false (strings.ToLower To s) (lit "-")).
  assert (Hr : Forall (fun c => slug_char c = true) r)
    by (apply replace_slug_chars, ToLower_not_upper).
  assert (Hnd : no_double r = true) by apply replace_no_double.
  destruct (TrimRight_prefix r "-") as [k1 Hk1].
  set (t1 := strings.TrimRight r "-") in *.
  destruct (TrimLeft_suffix t1 "-") as [k2 Hk2].
  set (t2 := strings.TrimLeft t1 "-") in *.
  assert (H1 : Forall (fun c => slug_char c = true) t1)
    by (rewrite Hk1 in Hr; now apply Forall_app in Hr).
  assert (H2 : Forall (fun c => slug_char c = true) t2)
    by (rewrite Hk2 in H1; now apply Forall_app in H1).
  assert (N1 : no_double t1 = true)
    by (rewrite Hk1 in Hnd; now apply no_double_app_l in Hnd).
  assert (N2 : no_double t2 = true)
    by (rewrite Hk2 in N1; now apply no_double_app_r in N1).
  assert (S2 : starts_hyphen t2 = false) by apply TrimLeft_starts.
  assert (E2 : ends_hyphen t2 = false).
  { apply (ends_hyphen_suffix k2). rewrite <- Hk2. apply TrimRight_ends. }
  destruct (Nat.ltb_spec 60 (length t2)) as [Hlong|Hshort].
  - unfold slice_to.
    destruct (TrimRight_prefix (firstn 60 t2) "-") as [k3 Hk3].
    set (t3 := strings.TrimRight (firstn 60 t2) "-") in *.
    assert (Hp : t2 = t3 ++ (k3 ++ skipn 60 t2))
      by (rewrite app_assoc, <- Hk3; symmetry; apply firstn_skipn).
    repeat split.
    + rewrite Hp in H2. now apply Forall_app in H2.
    + rewrite Hp in N2. now apply no_double_app_l in N2.
    + rewrite Hp in S2. now apply starts_hyphen_prefix in S2.
    + apply TrimRight_ends.
    + assert (Hl : length (firstn 60 t2) = (length t3 + length k3)%nat)
        by (rewrite Hk3 at 1; apply length_app).
      rewrite length_firstn in Hl. lia.
  - repeat split; assumption.
Qed.

(** C5: for every input string [s], [slugify s], when it is not empty,
    matches the regular expression [^[a-z0-9]+(-[a-z0-9]+)*$] (runs of
    lower-case letters and digits separated by single hyphens, no hyphen at
    either end) and is at most 60 bytes long. *)
Theorem slugify_matches_slug_re (s : str) :
  branch.slugify To s <> [] ->
  slug_re (branch.slugify To s)
  /\ matches_slug_re (branch.slugify To s) = true
  /\ (length (branch.slugify To s) <= 60)%nat.
Proof.
  intros Hne. pose proof (slugify_ok s) as Hok.
  pose proof (slug_ok_matches _ Hok Hne) as Hm.
  split; [now apply matches_slug_re_iff|]. split; [exact Hm|].
  apply Hok.
Qed.

(** C6: [slugify] is idempotent: [slugify (slugify s) = slugify s] for
    every string [s]. *)
Theorem slugify_idempotent (s : str) :
  branch.slugify To (branch.slugify To s) = branch.slugify To s.
Proof.
  apply slugify_fixed, slugify_ok.
Qed.

(** C9: for every valid issue type and every title, no issue number is
    extracted from a branch name generated without one:
    [extractIssueFromBranch] answers 0, its "absent", on
    [GenerateName type 0 title]; for a slug has lower-case letters, digits
    and hyphens only, and "/GH-" occurs in no valid type. *)
Theorem extract_generate_without_issue (issueType title : str) :
  branch.ValidIssueType issueType = true ->
  Forall (fun c => slug_char c = true) (branch.slugify To title)
  /\ ~ substring (lit "/GH-") issueType
  /\ cmd.issueNumberRegex_FindStringSubmatch
       (branch.GenerateName To issueType 0 title) = []
  /\ cmd.extractIssueFromBranch (branch.GenerateName To issueType 0 title) = 0.
Proof.
  intros Hv. destruct (slugify_ok title) as (Hall & _).
  pose proof (ValidIssueType_no_slash _ Hv) as Hns.
  assert (Hfind : cmd.issueNumberRegex_FindStringSubmatch
                    (branch.GenerateName To issueType 0 title) = []).
  { unfold branch.GenerateName. cbn [Z.ltb Z.compare].
    rewrite Find_skip by exact Hns.
    change (lit "/" ++ branch.slugify To title)
      with ("/"%char :: branch.slugify To title).
    assert (Hhere : cmd.issueNumberRegex_match_here
                      ("/"%char :: branch.slugify To title) = None).
    { destruct (branch.slugify To title) as [|c sl]; [reflexivity|].
      inversion Hall as [|? ? Hc _]. unfold cmd.issueNumberRegex_match_here.
      destruct c as [[] [] [] [] [] [] [] []]; try reflexivity. discriminate Hc. }
    rewrite (Find_here_none _ _ Hhere). apply Find_none.
    eapply Forall_impl; [|exact Hall]. exact slug_char_no_slash. }
  split; [exact Hall|]. split; [|split; [exact Hfind|]].
  - intros (pre & post & E). rewrite E in Hns.
    apply Forall_app in Hns as [_ Hns]. inversion Hns as [|? ? Hc _].
    now apply Hc.
  - unfold cmd.extractIssueFromBranch. now rewrite Hfind.
Qed.

End Slugify.

(** ** Generated branch names and the issue number read back *)

(** C1: for every valid issue type, every title and every issue number
    [n > 0] (an [int]), the issue number extracted from the generated branch
    name is [n]; the extraction takes the first occurrence of
    [/GH-<digits>-] and parses the run of digits. *)
Theorem extract_generate_roundtrip (To : Z -> Z -> Z) (issueType title : str) (n : Z) :
  branch.ValidIssueType issueType = true ->
  0 < n <= strconv.MaxInt64 ->
  cmd.issueNumberRegex_FindStringSubmatch (branch.GenerateName To issueType n title)
  = [lit "/GH-" ++ strconv.Itoa n ++ lit "-"; strconv.Itoa n]
  /\ cmd.extractIssueFromBranch (branch.GenerateName To issueType n title) = n.
Proof.
  intros Hv Hn. unfold branch.GenerateName.
  destruct (Z.ltb_spec 0 n) as [_|Hle]; [|lia].
  destruct (Itoa_digits n ltac:(lia)) as (Hne & Hds & _).
  assert (Hfind : cmd.issueNumberRegex_FindStringSubmatch
                    (issueType ++ lit "/GH-" ++ strconv.Itoa n ++ lit "-"
                               ++ branch.slugify To title)
                  = [lit "/GH-" ++ strconv.Itoa n ++ lit "-"; strconv.Itoa n]).
  { rewrite Find_skip by now apply ValidIssueType_no_slash.
    now apply Find_issue. }
  split; [exact Hfind|].
  unfold cmd.extractIssueFromBranch. rewrite Hfind.
  cbn [length Nat.leb nth]. rewrite Atoi_Itoa by lia. reflexivity.
Qed.

(** C4: [GenerateName] returns [<type>/GH-<issueNumber>-<slug(title)>] when
    the issue number is positive and [<type>/<slug(title)>] otherwise; so
    [feature], 42, "Add login page!!" give [feature/GH-42-add-login-page],
    and [chore], 0, "cleanup" give [chore/cleanup]. *)
Theorem GenerateName_format (To : Z -> Z -> Z) :
  (forall issueType n title, 0 < n ->
     branch.GenerateName To issueType n title
     = issueType ++ lit "/GH-" ++ strconv.Itoa n ++ lit "-" ++ branch.slugify To title)
  /\ (forall issueType n title, n <= 0 ->
        branch.GenerateName To issueType n title
        = issueType ++ lit "/" ++ branch.slugify To title)
  /\ branch.GenerateName To branch.Feature 42 (lit "Add login page!!")
     = lit "feature/GH-42-add-login-page"
  /\ branch.GenerateName To branch.Chore 0 (lit "cleanup") = lit "chore/cleanup".
Proof.
  split; [|split; [|split]].
  - intros t n title Hn. unfold branch.GenerateName.
    now destruct (Z.ltb_spec 0 n); [|lia].
  - intros t n title Hn. unfold branch.GenerateName.
    now destruct (Z.ltb_spec 0 n); [lia|].
  - reflexivity.
  - reflexivity.
Qed.

(** ** The issue-type classifier *)

(** The test of [contains] for one keyword: equal, or longer and starting or
    ending with it. *)
Lemma keyword_test (s sub : str) :
  (str_eqb s sub
   || (length sub <? length s)%nat
      && (str_eqb (slice_to s (length sub)) sub
          || str_eqb (slice_from s (length s - length sub)) sub)) = true
  <-> s = sub
      \/ (exists k, k <> [] /\ s = sub ++ k)
      \/ (exists k, k <> [] /\ s = k ++ sub).
Proof.
  unfold slice_to, slice_from. split.
  - intros H. apply orb_true_iff in H as [H|H]; [left; now apply str_eqb_eq|].
    apply andb_true_iff in H as [Hlen H]. apply Nat.ltb_lt in Hlen.
    right. apply orb_true_iff in H as [H|H]; apply str_eqb_eq in H.
    + left. exists (skipn (length sub) s). split.
      * intros E. apply (f_equal (@length ascii)) in E.
        rewrite length_skipn in E. cbn [length] in E. lia.
      * pose proof (firstn_skipn (length sub) s) as E.
        rewrite H in E. now symmetry.
    + right. exists (firstn (length s - length sub) s). split.
      * intros E. apply (f_equal (@length ascii)) in E.
        rewrite length_firstn in E. cbn [length] in E. lia.
      * pose proof (firstn_skipn (length s - length sub) s) as E.
        rewrite H in E. now symmetry.
  - intros [->|[(k & Hk & ->)|(k & Hk & ->)]].
    + now rewrite str_eqb_refl.
    + apply orb_true_iff. right. apply andb_true_iff. split.
      * apply Nat.ltb_lt. rewrite length_app. destruct k; [contradiction|].
        cbn [length]. lia.
      * apply orb_true_iff. left. apply str_eqb_eq.
        rewrite firstn_app, Nat.sub_diag, firstn_all. cbn [firstn].
        apply app_nil_r.
    + apply orb_true_iff. right. apply andb_true_iff. split.
      * apply Nat.ltb_lt. rewrite length_app. destruct k; [contradiction|].
        cbn [length]. lia.
      * apply orb_true_iff. right. apply str_eqb_eq.
        rewrite length_app. replace (length k + length sub - length sub)%nat
          with (length k) by lia.
        rewrite skipn_app, Nat.sub_diag, skipn_all. reflexivity.
Qed.

Lemma contains_spec (s : str) (substrs : list str) :
  cmd.contains s substrs = true
  <-> exists sub, In sub substrs
        /\ (cmd.toLower s = sub
            \/ (exists k, k <> [] /\ cmd.toLower s = sub ++ k)
            \/ (exists k, k <> [] /\ cmd.toLower s = k ++ sub)).
Proof.
  unfold cmd.contains. rewrite existsb_exists.
  split; intros (sub & Hin & H); exists sub; (split; [exact Hin|]);
    now apply keyword_test.
Qed.

(** C2: the keyword test of the classifier is equality, prefix or suffix
    after lower-casing the label, not a substring search: a single label
    "bug" gives [bugfix], "documentation-needed" gives [docs], and
    "needs-documentation-review", which has the keyword inside, gives the
    empty answer. *)
Theorem contains_prefix_suffix_not_substring :
  (forall s substrs,
     cmd.contains s substrs = true
     <-> exists sub, In sub substrs
           /\ (cmd.toLower s = sub
               \/ (exists k, k <> [] /\ cmd.toLower s = sub ++ k)
               \/ (exists k, k <> [] /\ cmd.toLower s = k ++ sub)))
  /\ (forall issue,
        ghapi.Labels issue = [ghapi.Build_Label (lit "bug")] ->
        cmd.inferIssueType issue = lit "bugfix")
  /\ (forall issue,
        ghapi.Labels issue = [ghapi.Build_Label (lit "BUG")] ->
        cmd.inferIssueType issue = lit "bugfix")
  /\ (forall issue,
        ghapi.Labels issue = [ghapi.Build_Label (lit "documentation-needed")] ->
        cmd.inferIssueType issue = lit "docs")
  /\ (forall issue,
        ghapi.Labels issue = [ghapi.Build_Label (lit "needs-documentation-review")] ->
        cmd.inferIssueType issue = lit "")
  /\ substring (lit "documentation") (lit "needs-documentation-review").
Proof.
  split; [exact contains_spec|].
  split; [intros issue H; unfold cmd.inferIssueType; now rewrite H|].
  split; [intros issue H; unfold cmd.inferIssueType; now rewrite H|].
  split; [intros issue H; unfold cmd.inferIssueType; now rewrite H|].
  split; [intros issue H; unfold cmd.inferIssueType; now rewrite H|].
  now exists (lit "needs-"), (lit "-review").
Qed.

Lemma inferIssueType_labels_cons (label : ghapi.Label) (rest : list ghapi.Label) :
  cmd.inferIssueType_labels (label :: rest)
  = match first_rule (ghapi.Name label) with
    | Some ty => ty
    | None => cmd.inferIssueType_labels rest
    end.
Proof.
  cbn [cmd.inferIssueType_labels]. unfold first_rule, rules.
  cbn [find fst snd option_map].
  repeat match goal with
  | |- context [cmd.contains ?n ?k] => destruct (cmd.contains n k)
  end; reflexivity.
Qed.

(** C7: [inferIssueType] goes through the labels in their order and
    answers with the type of the first label that matches a rule, the rules
    being tried for each label in the order bug/fix, feature/enhancement,
    hotfix/urgent/critical, docs/documentation, refactor, test,
    chore/maintenance; when no label matches a rule the answer is the empty
    string (absent).  The function is total: it never fails. *)
Theorem inferIssueType_first_matching_label (issue : ghapi.Issue) :
  (forall before label after ty,
     ghapi.Labels issue = before ++ label :: after ->
     (forall l, In l before -> first_rule (ghapi.Name l) = None) ->
     first_rule (ghapi.Name label) = Some ty ->
     cmd.inferIssueType issue = ty)
  /\ ((forall l, In l (ghapi.Labels issue) -> first_rule (ghapi.Name l) = None) ->
      cmd.inferIssueType issue = lit "").
Proof.
  unfold cmd.inferIssueType. split.
  - intros before label after ty ->. induction before as [|l before IH];
      intros Hbefore Hlabel; cbn [app]; rewrite inferIssueType_labels_cons.
    + now rewrite Hlabel.
    + rewrite (Hbefore l) by now left. apply IH; [|exact Hlabel].
      intros l' Hl'. apply Hbefore. now right.
  - induction (ghapi.Labels issue) as [|l labels IH]; intros Hnone; [reflexivity|].
    rewrite inferIssueType_labels_cons, (Hnone l) by now left.
    apply IH. intros l' Hl'. apply Hnone. now right.
Qed.

Lemma inferIssueType_labels_codomain (labels : list ghapi.Label) :
  In (cmd.inferIssueType_labels labels)
     [branch.Bugfix; branch.Feature; branch.Hotfix; branch.Docs;
      branch.Refactor; branch.Test; branch.Chore; lit ""].
Proof.
  induction labels as [|l labels IH]; [cbn; tauto|].
  cbn [cmd.inferIssueType_labels].
  repeat match goal with
  | |- context [if cmd.contains ?n ?k then _ else _] => destruct (cmd.contains n k)
  end; try exact IH; cbn; tauto.
Qed.

Lemma inferIssueType_not_release_internal (issue : ghapi.Issue) :
  cmd.inferIssueType issue <> branch.Release
  /\ cmd.inferIssueType issue <> branch.Internal.
Proof.
  pose proof (inferIssueType_labels_codomain (ghapi.Labels issue)) as H.
  unfold cmd.inferIssueType.
  repeat (destruct H as [<-|H]; [split; discriminate|]). destruct H.
Qed.

(** C10, as the code has it: whatever the labels, the answer of
    [inferIssueType] is one of bugfix, feature, hotfix, docs, refactor,
    test, chore, or the empty string (absent), never "release" or
    "internal".  When [runCreateBranch] settles on one of these two, it
    comes from the flag [--type], or from the selection among all issue
    types that is offered when no type is given or inferred and [-y] is not
    set. *)
Theorem inferIssueType_codomain :
  (forall issue,
     In (cmd.inferIssueType issue)
        [branch.Bugfix; branch.Feature; branch.Hotfix; branch.Docs;
         branch.Refactor; branch.Test; branch.Chore; lit ""]
     /\ cmd.inferIssueType issue <> branch.Release
     /\ cmd.inferIssueType issue <> branch.Internal)
  /\ (forall flag issue useDefaults selected ty,
        cmd.runCreateBranch_issueType flag issue useDefaults selected = Some ty ->
        ty = branch.Release \/ ty = branch.Internal ->
        flag = ty
        \/ (flag = lit "" /\ useDefaults = false
            /\ cmd.inferIssueType issue = lit ""
            /\ exists idx, selected = Some idx
                 /\ nth idx branch.AllIssueTypeStrings [] = ty)).
Proof.
  split.
  - intros issue. split; [apply inferIssueType_labels_codomain|].
    apply inferIssueType_not_release_internal.
  - intros flag issue useDefaults selected ty.
    unfold cmd.runCreateBranch_issueType.
    destruct (inferIssueType_not_release_internal issue) as [Hr Hi].
    destruct (str_eqb flag (lit "")) eqn:Ef.
    + apply str_eqb_eq in Ef. subst flag.
      destruct (str_eqb (cmd.inferIssueType issue) (lit "")) eqn:Ei.
      * apply str_eqb_eq in Ei. destruct useDefaults; cbn [negb andb].
        -- change (negb (branch.ValidIssueType (lit "feature"))) with false.
           cbv iota. intros H [E|E]; inversion H; subst; discriminate.
        -- destruct selected as [idx|]; [|discriminate].
           destruct (negb _); [discriminate|]. intros H _. inversion H; subst.
           right. repeat split; try assumption. now exists idx.
      * cbn [andb]. destruct (negb _); [discriminate|].
        intros H [E|E]; inversion H; subst; congruence.
    + rewrite Ef. cbn [andb]. destruct (negb _); [discriminate|].
      intros H _. inversion H. now left.
Qed.

(** C10, as stated, fails in its last part: without the flag [--type], with
    no label to infer from and without [-y], the selection of the fourth
    option makes "release" the issue type. *)
Lemma release_without_type_flag :
  cmd.runCreateBranch_issueType (lit "") (ghapi.Build_Issue 1 [] [] [] [] [])
    false (Some 3%nat) = Some branch.Release
  /\ lit "" <> branch.Release.
Proof. split; [reflexivity|discriminate]. Qed.

(** ** The body of a pull request *)

(** C8: with an issue, the body is the heading "## Description", then the
    body of the issue as it is, or "Resolves #<number>" when that is empty,
    then a blank line and "Closes #<number>"; without an issue it is the
    heading "## Description" with a placeholder comment, then the heading
    "## Checklist" with exactly three items, all unchecked: "Tests
    added/updated", "Documentation updated", "Code follows project
    conventions". *)
Theorem generatePRBody_layout :
  (forall issue, ghapi.Body issue <> [] ->
     cmd.generatePRBody (Some issue)
     = lit "## Description" ++ [cmd.nl; cmd.nl]
       ++ ghapi.Body issue ++ [cmd.nl; cmd.nl]
       ++ lit "Closes #" ++ strconv.Itoa (ghapi.Number issue) ++ [cmd.nl])
  /\ (forall issue, ghapi.Body issue = [] ->
        cmd.generatePRBody (Some issue)
        = lit "## Description" ++ [cmd.nl; cmd.nl]
          ++ lit "Resolves #" ++ strconv.Itoa (ghapi.Number issue) ++ [cmd.nl; cmd.nl]
          ++ lit "Closes #" ++ strconv.Itoa (ghapi.Number issue) ++ [cmd.nl])
  /\ lines (cmd.generatePRBody (Some (ghapi.Build_Issue 7 [] [] [] [] [])))
     = [lit "## Description"; lit ""; lit "Resolves #7"; lit ""; lit "Closes #7"]
  /\ lines (cmd.generatePRBody None)
     = [lit "## Description"; lit "";
        lit "<!-- Describe your changes here -->"; lit "";
        lit "## Checklist"; lit "";
        lit "- [ ] Tests added/updated";
        lit "- [ ] Documentation updated";
        lit "- [ ] Code follows project conventions"]
  /\ filter (has_prefix (lit "- [")) (lines (cmd.generatePRBody None))
     = [lit "- [ ] Tests added/updated";
        lit "- [ ] Documentation updated";
        lit "- [ ] Code follows project conventions"].
Proof.
  split; [|split; [|split; [|split]]].
  - intros issue Hb. unfold cmd.generatePRBody.
    destruct (str_eqb (ghapi.Body issue) (lit "")) eqn:E.
    + apply str_eqb_eq in E. contradiction.
    + cbn [negb]. now rewrite <- !app_assoc.
  - intros issue Hb. unfold cmd.generatePRBody. rewrite Hb.
    cbn [str_eqb lit list_ascii_of_string negb]. now rewrite <- !app_assoc.
  - reflexivity.
  - reflexivity.
  - reflexivity.
Qed.

(** ** The title read off a branch name *)

(** C3 (the code at the claim's input): the title made from
    [feature/GH-42-add-login-page] is "GH 42 add login page".  The pattern
    that is to remove the issue number wants digits first, and the name
    continues with "GH-" after the type; only without that marker does the
    title come out as "Add login page". *)
Theorem generateTitleFromBranch_keeps_GH (To : Z -> Z -> Z) :
  cmd.generateTitleFromBranch To (lit "feature/GH-42-add-login-page")
  = lit "GH 42 add login page"
  /\ cmd.generateTitleFromBranch To (lit "feature/GH-42-add-login-page")
     <> lit "Add login page"
  /\ cmd.generateTitleFromBranch To (lit "feature/42-add-login-page")
     = lit "Add login page"
  /\ cmd.generateTitleFromBranch To
       (branch.GenerateName To branch.Feature 42 (lit "Add login page"))
     = lit "GH 42 add login page".
Proof.
  split; [reflexivity|]. split; [discriminate|]. split; reflexivity.
Qed.

(** ** The properties at work, on the excerpt of the case table *)

Lemma To_excerpt_rune (_case r : Z) : int32 r -> int32 (To_excerpt _case r).
Proof.
  unfold int32, To_excerpt. intros Hr.
  compare_Z; cbn [andb orb]; lia.
Qed.

Lemma To_excerpt_lower_not_upper (r : Z) :
  int32 r -> unicode.MaxASCII < r -> ~ (65 <= To_excerpt unicode.LowerCase r <= 90).
Proof.
  unfold int32, To_excerpt, unicode.MaxASCII. intros Hr Hgt.
  change (unicode.LowerCase =? unicode.LowerCase) with true. cbv iota.
  compare_Z; cbn [andb orb]; lia.
Qed.

Lemma extract_generate_roundtrip_witness :
  branch.ValidIssueType branch.Feature = true
  /\ 0 < 42 <= strconv.MaxInt64
  /\ cmd.extractIssueFromBranch
       (branch.GenerateName To_excerpt branch.Feature 42 (lit "Add login page!!")) = 42.
Proof.
  assert (Hv : branch.ValidIssueType branch.Feature = true) by reflexivity.
  assert (Hn : 0 < 42 <= strconv.MaxInt64) by (unfold strconv.MaxInt64; lia).
  split; [exact Hv|]. split; [exact Hn|].
  exact (proj2 (extract_generate_roundtrip To_excerpt branch.Feature
                  (lit "Add login page!!") 42 Hv Hn)).
Defined.

Lemma slugify_matches_slug_re_witness :
  branch.slugify To_excerpt (lit "Crème Brûlée à 300K, ÉTÉ!") = lit "cr-me-br-l-e-300k-t"
  /\ slug_re (branch.slugify To_excerpt (lit "Crème Brûlée à 300K, ÉTÉ!"))
  /\ (length (branch.slugify To_excerpt (lit "Crème Brûlée à 300K, ÉTÉ!")) <= 60)%nat.
Proof.
  assert (Hne : branch.slugify To_excerpt (lit "Crème Brûlée à 300K, ÉTÉ!") <> [])
    by (vm_compute; discriminate).
  pose proof (slugify_matches_slug_re To_excerpt To_excerpt_rune
                To_excerpt_lower_not_upper _ Hne) as (Hre & _ & Hlen).
  split; [vm_compute; reflexivity|]. split; [exact Hre|exact Hlen].
Defined.

Lemma slugify_idempotent_witness :
  branch.slugify To_excerpt
    (branch.slugify To_excerpt
       (lit "A very long title with many words, certainly longer than sixty - characters"))
  = branch.slugify To_excerpt
      (lit "A very long title with many words, certainly longer than sixty - characters")
  /\ branch.slugify To_excerpt
       (lit "A very long title with many words, certainly longer than sixty - characters")
     = lit "a-very-long-title-with-many-words-certainly-longer-than-sixt".
Proof.
  split.
  - exact (slugify_idempotent To_excerpt To_excerpt_rune To_excerpt_lower_not_upper _).
  - vm_compute; reflexivity.
Defined.

Lemma extract_generate_without_issue_witness :
  branch.ValidIssueType branch.Chore = true
  /\ cmd.extractIssueFromBranch
       (branch.GenerateName To_excerpt branch.Chore 0 (lit "GH-7-cleanup")) = 0.
Proof.
  assert (Hv : branch.ValidIssueType branch.Chore = true) by reflexivity.
  split; [exact Hv|].
  exact (proj2 (proj2 (proj2
           (extract_generate_without_issue To_excerpt To_excerpt_rune
              To_excerpt_lower_not_upper branch.Chore (lit "GH-7-cleanup") Hv)))).
Defined.

(** * More of the code: the remote URL, the prompts, and how the pieces fit *)

(** ** Prefixes and suffixes *)

Lemma HasPrefix_app (p s : str) : strings.HasPrefix (p ++ s) p = true.
Proof.
  unfold strings.HasPrefix, slice_to. apply andb_true_iff. split.
  - apply Nat.leb_le. rewrite length_app. lia.
  - apply str_eqb_eq. rewrite firstn_app, Nat.sub_diag, firstn_all.
    cbn [firstn]. apply app_nil_r.
Qed.

Lemma TrimPrefix_app (p s : str) : strings.TrimPrefix (p ++ s) p = s.
Proof.
  unfold strings.TrimPrefix, slice_from. rewrite HasPrefix_app.
  rewrite skipn_app, Nat.sub_diag, skipn_all. reflexivity.
Qed.

Lemma HasPrefix_spec (s p : str) :
  strings.HasPrefix s p = true <-> exists k, s = p ++ k.
Proof.
  split.
  - unfold strings.HasPrefix, slice_to. intros H.
    apply andb_true_iff in H as [_ H]. apply str_eqb_eq in H.
    exists (skipn (length p) s). rewrite <- H at 1. symmetry. apply firstn_skipn.
  - intros [k ->]. apply HasPrefix_app.
Qed.

Lemma HasSuffix_spec (s suf : str) :
  strings.HasSuffix s suf = true <-> exists k, s = k ++ suf.
Proof.
  split.
  - unfold strings.HasSuffix, slice_from. intros H.
    apply andb_true_iff in H as [_ H]. apply str_eqb_eq in H.
    exists (firstn (length s - length suf) s).
    pose proof (firstn_skipn (length s - length suf) s) as E.
    rewrite H in E. now symmetry.
  - intros [k ->]. unfold strings.HasSuffix, slice_from.
    apply andb_true_iff. split.
    + apply Nat.leb_le. rewrite length_app. lia.
    + apply str_eqb_eq. rewrite length_app.
      replace (length k + length suf - length suf)%nat with (length k) by lia.
      rewrite skipn_app, Nat.sub_diag, skipn_all. reflexivity.
Qed.

Lemma TrimSuffix_app (k suf : str) : strings.TrimSuffix (k ++ suf) suf = k.
Proof.
  unfold strings.TrimSuffix, slice_to.
  rewrite (proj2 (HasSuffix_spec (k ++ suf) suf)) by now exists k.
  rewrite length_app.
  replace (length k + length suf - length suf)%nat with (length k) by lia.
  rewrite firstn_app, Nat.sub_diag, firstn_all. cbn [firstn]. apply app_nil_r.
Qed.

(** A suffix does not reach across a byte that it does not hold. *)
Lemma HasSuffix_behind (pre s suf : str) (d : ascii) :
  ~ In d suf ->
  strings.HasSuffix (pre ++ d :: s) suf = strings.HasSuffix s suf.
Proof.
  intros Hd.
  destruct (strings.HasSuffix s suf) eqn:Es.
  - apply HasSuffix_spec in Es as [k ->]. apply HasSuffix_spec.
    exists (pre ++ d :: k). now rewrite <- app_assoc.
  - destruct (strings.HasSuffix (pre ++ d :: s) suf) eqn:E; [|reflexivity].
    apply HasSuffix_spec in E as [k E].
    change (pre ++ d :: s) with (pre ++ [d] ++ s) in E. rewrite app_assoc in E.
    apply app_eq_app in E as [l [[E1 E2]|[E1 E2]]].
    + destruct l as [|x l] using rev_ind.
      * cbn [app] in E2. subst suf.
        rewrite (proj2 (HasSuffix_spec s s)) in Es by now exists [].
        discriminate Es.
      * rewrite app_assoc in E1. apply app_inj_tail in E1 as [_ <-].
        elim Hd. rewrite E2. apply in_or_app. left. apply in_or_app. right.
        now left.
    + rewrite (proj2 (HasSuffix_spec s suf)) in Es by now exists l.
      discriminate Es.
Qed.

Lemma TrimSuffix_behind (pre s suf : str) (d : ascii) :
  ~ In d suf ->
  strings.TrimSuffix (pre ++ d :: s) suf = pre ++ d :: strings.TrimSuffix s suf.
Proof.
  intros Hd. destruct (strings.HasSuffix s suf) eqn:Es.
  - apply HasSuffix_spec in Es as [k ->]. rewrite TrimSuffix_app.
    change (pre ++ d :: k ++ suf) with (pre ++ (d :: k) ++ suf).
    rewrite app_assoc. apply TrimSuffix_app.
  - unfold strings.TrimSuffix. now rewrite (HasSuffix_behind pre s suf d Hd), Es.
Qed.

Lemma IndexByte_first (t s : str) (sep : ascii) :
  Forall (fun c => c <> sep) t ->
  strings.IndexByte (t ++ sep :: s) sep = Some (length t).
Proof.
  induction 1 as [|c t Hc _ IH]; cbn [app strings.IndexByte length].
  - now rewrite Ascii.eqb_refl.
  - rewrite (proj2 (Ascii.eqb_neq c sep) Hc), IH. reflexivity.
Qed.

Lemma IndexByte_none (t : str) (sep : ascii) :
  Forall (fun c => c <> sep) t -> strings.IndexByte t sep = None.
Proof.
  induction 1 as [|c t Hc _ IH]; cbn [strings.IndexByte]; [reflexivity|].
  now rewrite (proj2 (Ascii.eqb_neq c sep) Hc), IH.
Qed.

Lemma SplitN2_first (t s : str) (sep : ascii) :
  Forall (fun c => c <> sep) t ->
  strings.SplitN2 (t ++ sep :: s) sep = [t; s].
Proof.
  intros H. unfold strings.SplitN2, slice_to, slice_from.
  rewrite (IndexByte_first t s sep H).
  rewrite firstn_app, Nat.sub_diag, firstn_all. cbn [firstn]. rewrite app_nil_r.
  replace (length t + 1)%nat with (length t + 1 + 0)%nat by lia.
  change (t ++ sep :: s) with (t ++ [sep] ++ s). rewrite app_assoc.
  rewrite skipn_app, skipn_all2 by (rewrite length_app; cbn; lia).
  rewrite length_app. cbn [length app].
  replace (length t + 1 + 0 - (length t + 1))%nat with 0%nat by lia.
  reflexivity.
Qed.

Lemma SplitN2_none (t : str) (sep : ascii) :
  Forall (fun c => c <> sep) t -> strings.SplitN2 t sep = [t].
Proof.
  intros H. unfold strings.SplitN2. now rewrite (IndexByte_none t sep H).
Qed.

Lemma TrimSuffix_prefix (s suf : str) : exists k, s = strings.TrimSuffix s suf ++ k.
Proof.
  unfold strings.TrimSuffix, slice_to.
  destruct (strings.HasSuffix s suf); [|exists []; now rewrite app_nil_r].
  exists (skipn (length s - length suf) s). symmetry. apply firstn_skipn.
Qed.

Lemma Forall_TrimSuffix (P : ascii -> Prop) (s suf : str) :
  Forall P s -> Forall P (strings.TrimSuffix s suf).
Proof.
  intros H. destruct (TrimSuffix_prefix s suf) as [k E].
  rewrite E in H. now apply Forall_app in H.
Qed.

(** ** The slug of a repository, from the URL of its remote *)

(** X1: for an SSH remote [git@<host>:<path>], whatever the host (no colon
    in it) and the path, [parseRepoSlug] returns the path, without one
    trailing ".git". *)
Theorem parseRepoSlug_ssh (host path : str) :
  Forall (fun c => c <> ":"%char) host ->
  git.parseRepoSlug (lit "git@" ++ host ++ ":"%char :: path)
  = Some (strings.TrimSuffix path (lit ".git")).
Proof.
  intros Hh. unfold git.parseRepoSlug. cbv zeta.
  rewrite app_assoc, TrimSuffix_behind by (cbn; intuition discriminate).
  assert (Hp : strings.HasPrefix
                 ((lit "git@" ++ host) ++ ":"%char :: strings.TrimSuffix path (lit ".git"))
                 (lit "git@") = true)
    by (rewrite <- app_assoc; apply HasPrefix_app).
  rewrite Hp, SplitN2_first; [reflexivity|].
  apply Forall_app. split; [|exact Hh]. repeat constructor; discriminate.
Qed.

Lemma parseRepoSlug_ssh_witness :
  Forall (fun c => c <> ":"%char) (lit "github.com")
  /\ git.parseRepoSlug (lit "git@github.com:jesusgpo/gh-buddy.git")
     = Some (lit "jesusgpo/gh-buddy").
Proof.
  assert (H : Forall (fun c => c <> ":"%char) (lit "github.com"))
    by (repeat constructor; discriminate).
  split; [exact H|].
  exact (parseRepoSlug_ssh (lit "github.com") (lit "jesusgpo/gh-buddy.git") H).
Defined.

Lemma https_not_ssh (s : str) :
  strings.HasPrefix (lit "https://" ++ s) (lit "git@") = false.
Proof. reflexivity. Qed.

Lemma http_not_ssh (s : str) :
  strings.HasPrefix (lit "http://" ++ s) (lit "git@") = false.
Proof. reflexivity. Qed.

(** X2: for a remote [https://<host>/<path>] or [http://<host>/<path>],
    whatever the host (no slash in it) and the path, [parseRepoSlug] returns
    the path, without one trailing ".git": the same slug as for the SSH
    form. *)
Theorem parseRepoSlug_https (host path : str) :
  Forall (fun c => c <> "/"%char) host ->
  git.parseRepoSlug (lit "https://" ++ host ++ "/"%char :: path)
  = Some (strings.TrimSuffix path (lit ".git"))
  /\ git.parseRepoSlug (lit "http://" ++ host ++ "/"%char :: path)
     = Some (strings.TrimSuffix path (lit ".git")).
Proof.
  intros Hh. set (path' := strings.TrimSuffix path (lit ".git")).
  assert (Hslice : slice_from (host ++ "/"%char :: path') (length host + 1) = path').
  { unfold slice_from. change (host ++ "/"%char :: path') with (host ++ ["/"%char] ++ path').
    rewrite app_assoc, skipn_app, skipn_all2 by (rewrite length_app; cbn; lia).
    rewrite length_app. cbn [length app].
    now replace (length host + 1 - (length host + 1))%nat with 0%nat by lia. }
  split; unfold git.parseRepoSlug; cbv zeta;
    rewrite app_assoc, TrimSuffix_behind by (cbn; intuition discriminate);
    fold path'; rewrite <- app_assoc.
  - rewrite https_not_ssh.
    cbn [git.parseRepoSlug_prefixes].
    now rewrite HasPrefix_app, TrimPrefix_app, (IndexByte_first host path' "/" Hh), Hslice.
  - rewrite http_not_ssh.
    cbn [git.parseRepoSlug_prefixes].
    assert (Hs : strings.HasPrefix (lit "http://" ++ host ++ "/"%char :: path')
                   (lit "https://") = false).
    { unfold strings.HasPrefix, slice_to. apply andb_false_iff. right.
      destruct host; reflexivity. }
    rewrite Hs.
    now rewrite HasPrefix_app, TrimPrefix_app, (IndexByte_first host path' "/" Hh), Hslice.
Qed.

Lemma parseRepoSlug_https_witness :
  Forall (fun c => c <> "/"%char) (lit "github.com")
  /\ git.parseRepoSlug (lit "https://github.com/jesusgpo/gh-buddy.git")
     = Some (lit "jesusgpo/gh-buddy")
  /\ git.parseRepoSlug (lit "http://github.com/jesusgpo/gh-buddy")
     = Some (lit "jesusgpo/gh-buddy").
Proof.
  assert (H : Forall (fun c => c <> "/"%char) (lit "github.com"))
    by (repeat constructor; discriminate).
  split; [exact H|]. split.
  - exact (proj1 (parseRepoSlug_https (lit "github.com") (lit "jesusgpo/gh-buddy.git") H)).
  - exact (proj2 (parseRepoSlug_https (lit "github.com") (lit "jesusgpo/gh-buddy") H)).
Defined.

(** X3: a remote URL that stops after the host is an error: neither
    [https://<host>] nor [http://<host>] nor [git@<host>] (no slash and no
    colon in the host) has a slug. *)
Theorem parseRepoSlug_no_path (host : str) :
  Forall (fun c => c <> "/"%char /\ c <> ":"%char) host ->
  git.parseRepoSlug (lit "https://" ++ host) = None
  /\ git.parseRepoSlug (lit "http://" ++ host) = None
  /\ git.parseRepoSlug (lit "git@" ++ host) = None.
Proof.
  intros Hh. set (host' := strings.TrimSuffix host (lit ".git")).
  assert (Hh' : Forall (fun c => c <> "/"%char /\ c <> ":"%char) host')
    by now apply Forall_TrimSuffix.
  assert (Hslash : Forall (fun c => c <> "/"%char) host')
    by (eapply Forall_impl; [|exact Hh']; now intros c [H _]).
  assert (Hcolon : Forall (fun c => c <> ":"%char) host')
    by (eapply Forall_impl; [|exact Hh']; now intros c [_ H]).
  split; [|split]; unfold git.parseRepoSlug; cbv zeta.
  - change (lit "https://" ++ host) with (lit "https:/" ++ "/"%char :: host).
    rewrite TrimSuffix_behind by (cbn; intuition discriminate). fold host'.
    change (lit "https:/" ++ "/"%char :: host') with (lit "https://" ++ host').
    rewrite https_not_ssh.
    cbn [git.parseRepoSlug_prefixes].
    rewrite HasPrefix_app, TrimPrefix_app, (IndexByte_none host' "/" Hslash).
    assert (Hs : strings.HasPrefix (lit "https://" ++ host') (lit "http://") = false)
      by (unfold strings.HasPrefix, slice_to; apply andb_false_iff; now right).
    now rewrite Hs.
  - change (lit "http://" ++ host) with (lit "http:/" ++ "/"%char :: host).
    rewrite TrimSuffix_behind by (cbn; intuition discriminate). fold host'.
    change (lit "http:/" ++ "/"%char :: host') with (lit "http://" ++ host').
    rewrite http_not_ssh.
    cbn [git.parseRepoSlug_prefixes].
    assert (Hs : strings.HasPrefix (lit "http://" ++ host') (lit "https://") = false).
    { unfold strings.HasPrefix, slice_to. apply andb_false_iff. right.
      destruct host'; reflexivity. }
    now rewrite Hs, HasPrefix_app, TrimPrefix_app, (IndexByte_none host' "/" Hslash).
  - change (lit "git@" ++ host) with (lit "git" ++ "@"%char :: host).
    rewrite TrimSuffix_behind by (cbn; intuition discriminate). fold host'.
    change (lit "git" ++ "@"%char :: host') with (lit "git@" ++ host').
    rewrite HasPrefix_app, SplitN2_none
      by (apply Forall_app; split; [repeat constructor; discriminate|exact Hcolon]).
    cbn [length Nat.eqb git.parseRepoSlug_prefixes].
    assert (H1 : strings.HasPrefix (lit "git@" ++ host') (lit "https://") = false)
      by (unfold strings.HasPrefix, slice_to; apply andb_false_iff; now right).
    assert (H2 : strings.HasPrefix (lit "git@" ++ host') (lit "http://") = false)
      by (unfold strings.HasPrefix, slice_to; apply andb_false_iff; now right).
    now rewrite H1, H2.
Qed.

Lemma parseRepoSlug_no_path_witness :
  Forall (fun c => c <> "/"%char /\ c <> ":"%char) (lit "example.git")
  /\ git.parseRepoSlug (lit "https://example.git") = None.
Proof.
  assert (H : Forall (fun c => c <> "/"%char /\ c <> ":"%char) (lit "example.git"))
    by (repeat constructor; discriminate).
  split; [exact H|].
  exact (proj1 (parseRepoSlug_no_path (lit "example.git") H)).
Defined.

(** ** White space around an answer *)

Section TrimSpace.

Variable TrimFunc_IsSpace : str -> str.
Variable TrimRightFunc_IsSpace : str -> str.

Let TrimSpace := strings.TrimSpace TrimFunc_IsSpace TrimRightFunc_IsSpace.

Lemma asciiSpace_low (c : ascii) : strings.asciiSpace c = true -> byte_val c < 128.
Proof.
  unfold strings.asciiSpace. intros H. apply orb_true_iff in H as [H|H].
  - apply andb_true_iff in H as [_ H]. apply Z.leb_le in H. lia.
  - apply Z.eqb_eq in H. lia.
Qed.

Lemma TrimSpace_start_blank (sp rest : str) :
  Forall (fun c => strings.asciiSpace c = true) sp ->
  strings.TrimSpace_start (sp ++ rest) = strings.TrimSpace_start rest.
Proof.
  induction 1 as [|c sp Hc _ IH]; [reflexivity|].
  cbn [app strings.TrimSpace_start].
  pose proof (asciiSpace_low c Hc).
  destruct (Z.leb_spec 128 (byte_val c)); [lia|]. now rewrite Hc.
Qed.

Lemma TrimSpace_start_visible (c : ascii) (s : str) :
  visible c = true -> strings.TrimSpace_start (c :: s) = inr (c :: s).
Proof.
  unfold visible. intros H. apply andb_true_iff in H as [H1 H2].
  apply Z.ltb_lt in H1. apply negb_true_iff in H2.
  cbn [strings.TrimSpace_start].
  destruct (Z.leb_spec 128 (byte_val c)); [lia|]. now rewrite H2.
Qed.

Lemma TrimSpace_stop_blank (sp : str) :
  Forall (fun c => strings.asciiSpace c = true) sp -> strings.TrimSpace_stop sp = [].
Proof.
  induction 1 as [|c sp Hc _ IH]; [reflexivity|].
  cbn [strings.TrimSpace_stop]. now rewrite IH, Hc.
Qed.

Lemma TrimSpace_stop_visible (s sp : str) :
  s <> [] -> Forall (fun c => visible c = true) s ->
  Forall (fun c => strings.asciiSpace c = true) sp ->
  strings.TrimSpace_stop (s ++ sp) = s.
Proof.
  intros Hne Hs Hsp. induction Hs as [|c s Hc Hs IH]; [contradiction|].
  cbn [app strings.TrimSpace_stop]. destruct s as [|d s].
  - cbn [app]. rewrite (TrimSpace_stop_blank sp Hsp).
    unfold visible in Hc. apply andb_true_iff in Hc as [_ Hc].
    apply negb_true_iff in Hc. now rewrite Hc.
  - rewrite IH by discriminate. reflexivity.
Qed.

Lemma visible_last (s : str) (d : ascii) :
  s <> [] -> Forall (fun c => visible c = true) s -> visible (last s d) = true.
Proof.
  intros Hne Hs. induction Hs as [|c s Hc Hs IH]; [contradiction|].
  destruct s as [|c' s]; [exact Hc|]. apply IH. discriminate.
Qed.

(** White space before and after a word of visible ASCII bytes goes, the
    word stays. *)
Lemma TrimSpace_word (sp1 s sp2 : str) :
  Forall (fun c => strings.asciiSpace c = true) sp1 ->
  Forall (fun c => visible c = true) s ->
  Forall (fun c => strings.asciiSpace c = true) sp2 ->
  TrimSpace (sp1 ++ s ++ sp2) = s.
Proof.
  intros H1 Hs H2. unfold TrimSpace, strings.TrimSpace.
  rewrite (TrimSpace_start_blank sp1 _ H1).
  destruct s as [|c s].
  - cbn [app].
    assert (E : strings.TrimSpace_start sp2 = inr []).
    { rewrite <- (app_nil_r sp2), (TrimSpace_start_blank sp2 [] H2). reflexivity. }
    rewrite E. reflexivity.
  - inversion Hs as [|? ? Hc Hs'].
    change ((c :: s) ++ sp2) with (c :: s ++ sp2).
    rewrite (TrimSpace_start_visible c (s ++ sp2) Hc).
    change (c :: s ++ sp2) with ((c :: s) ++ sp2).
    rewrite (TrimSpace_stop_visible (c :: s) sp2) by (try discriminate; assumption).
    pose proof (visible_last (c :: s) "000"%char ltac:(discriminate) Hs) as Hl.
    unfold visible in Hl. apply andb_true_iff in Hl as [Hl _]. apply Z.ltb_lt in Hl.
    destruct (Z.leb_spec 128 (byte_val (last (c :: s) "000"%char))); [lia|reflexivity].
Qed.

End TrimSpace.

(** ** Numbers, with their sign *)

Lemma Itoa_negative (i : Z) :
  i < 0 ->
  exists ds, strconv.Itoa i = "-"%char :: ds /\ digits_of (- i) ds.
Proof.
  intros Hi. unfold strconv.Itoa. destruct (Z.ltb_spec i 0); [|lia].
  destruct (formatBits_digits (Z.to_nat (Z.log2 (- i))) (- i) []
              (digits_fuel_enough (- i) ltac:(lia))) as (ds & Heq & Hds).
  exists ds. unfold strconv.digits_fuel. rewrite Heq, app_nil_r. now split.
Qed.

Lemma digit_visible (c : ascii) : is_digit c = true -> visible c = true.
Proof.
  unfold is_digit, in_range, visible, strings.asciiSpace. intros H.
  apply andb_true_iff in H as [H1 H2]. apply Z.leb_le in H1, H2.
  apply andb_true_iff. split; [apply Z.ltb_lt; lia|].
  apply negb_true_iff, orb_false_iff. split.
  - apply andb_false_iff. right. apply Z.leb_gt. lia.
  - apply Z.eqb_neq. lia.
Qed.

Lemma Itoa_visible (i : Z) :
  strconv.Itoa i <> [] /\ Forall (fun c => visible c = true) (strconv.Itoa i).
Proof.
  destruct (Z.lt_ge_cases i 0) as [Hneg|Hpos].
  - destruct (Itoa_negative i Hneg) as (ds & -> & _ & Hds & _).
    split; [discriminate|]. constructor; [reflexivity|].
    eapply Forall_impl; [|exact Hds]. exact digit_visible.
  - destruct (Itoa_digits i Hpos) as (Hne & Hds & _).
    split; [exact Hne|]. eapply Forall_impl; [|exact Hds]. exact digit_visible.
Qed.

(** [Atoi] reads back what [Itoa] prints, for every [int]. *)
Lemma Atoi_Itoa_int (i : Z) :
  strconv.MinInt64 <= i <= strconv.MaxInt64 -> strconv.Atoi (strconv.Itoa i) = Some i.
Proof.
  intros Hi. destruct (Z.lt_ge_cases i 0) as [Hneg|Hpos];
    [|apply Atoi_Itoa; lia].
  destruct (Itoa_negative i Hneg) as (ds & -> & Hne & _ & Hval).
  unfold strconv.Atoi. cbn [Ascii.eqb Bool.eqb andb orb].
  destruct ds as [|d ds]; [contradiction|].
  specialize (Hval 0 []). rewrite app_nil_r in Hval. rewrite Hval.
  cbn [strconv.parse_digits].
  replace (0 * 10 ^ Z.of_nat (length (d :: ds)) + - i) with (- i) by lia.
  rewrite Z.opp_involutive.
  replace ((strconv.MinInt64 <=? i) && (i <=? strconv.MaxInt64)) with true;
    [reflexivity|].
  symmetry. apply andb_true_iff. split; apply Z.leb_le; lia.
Qed.

(** ** The prompts *)

Section Prompts.

Variable To : Z -> Z -> Z.
Variable TrimFunc_IsSpace : str -> str.
Variable TrimRightFunc_IsSpace : str -> str.

Let Confirm := prompt.Confirm To TrimFunc_IsSpace TrimRightFunc_IsSpace.
Let Input := prompt.Input TrimFunc_IsSpace TrimRightFunc_IsSpace.
Let Select := prompt.Select TrimFunc_IsSpace TrimRightFunc_IsSpace.
Let promptForIssue := cmd.promptForIssue TrimFunc_IsSpace TrimRightFunc_IsSpace.

(** X4: an index that [Select] returns is an index of the options, whatever
    the line typed: [types[idx]] and [issues[idx]] in the callers are within
    bounds.  With no option every answer is an error. *)
Theorem Select_within_options (options : list str) (line : str) (idx : nat) :
  Select options line = Some idx -> (idx < length options)%nat.
Proof.
  unfold Select, prompt.Select.
  destruct (strconv.Atoi _) as [i|]; [|discriminate].
  destruct (Z.ltb_spec i 1) as [|Hlo]; [discriminate|].
  destruct (Z.ltb_spec (Z.of_nat (length options)) i) as [|Hhi]; [discriminate|].
  cbn [orb]. intros E. injection E as <-. lia.
Qed.

(** X5: typing the number shown in front of an option, with any ASCII white
    space around it, selects that option: the answer [k + 1] gives the index
    [k]. *)
Theorem Select_number_typed (options : list str) (k : nat) (sp1 sp2 : str) :
  (k < length options)%nat ->
  Z.of_nat (length options) <= strconv.MaxInt64 ->
  Forall (fun c => strings.asciiSpace c = true) sp1 ->
  Forall (fun c => strings.asciiSpace c = true) sp2 ->
  Select options (sp1 ++ strconv.Itoa (Z.of_nat k + 1) ++ sp2) = Some k.
Proof.
  intros Hk Hmax H1 H2. unfold Select, prompt.Select.
  rewrite TrimSpace_word by (try assumption; apply Itoa_visible).
  rewrite Atoi_Itoa by lia.
  destruct (Z.ltb_spec (Z.of_nat k + 1) 1); [lia|].
  destruct (Z.ltb_spec (Z.of_nat (length options)) (Z.of_nat k + 1)); [lia|].
  cbn [orb]. f_equal. lia.
Qed.

(** X6: a line of ASCII white space only (just the newline of the Enter
    key, say) makes [Confirm] return its default and [Input] its default
    value. *)
Theorem blank_line_takes_default (line : str) (defaultYes : bool) (defaultVal : str) :
  Forall (fun c => strings.asciiSpace c = true) line ->
  Confirm defaultYes line = defaultYes /\ Input defaultVal line = defaultVal.
Proof.
  intros Hb.
  assert (Ht : strings.TrimSpace TrimFunc_IsSpace TrimRightFunc_IsSpace line = []).
  { rewrite <- (app_nil_r line).
    change (line ++ []) with (line ++ [] ++ []).
    apply TrimSpace_word; [exact Hb|constructor|constructor]. }
  assert (Hl : strings.ToLower To line = line).
  { unfold strings.ToLower.
    assert (Ha : forallb is_ascii line = true).
    { apply forallb_forall. rewrite Forall_forall in Hb. intros c Hc.
      apply Z.ltb_lt, asciiSpace_low, Hb, Hc. }
    rewrite Ha. destruct (existsb is_upper line) eqn:Eu; [|reflexivity].
    apply existsb_exists in Eu as (c & Hc & Hu).
    rewrite Forall_forall in Hb. specialize (Hb c Hc).
    unfold strings.asciiSpace in Hb. unfold is_upper, in_range in Hu.
    apply andb_true_iff in Hu as [Hu _]. apply Z.leb_le in Hu.
    apply orb_true_iff in Hb as [Hb|Hb].
    - apply andb_true_iff in Hb as [_ Hb]. apply Z.leb_le in Hb. lia.
    - apply Z.eqb_eq in Hb. lia. }
  split.
  - unfold Confirm, prompt.Confirm. now rewrite Hl, Ht.
  - unfold Input, prompt.Input. now rewrite Ht.
Qed.

(** X7: with issues listed, [promptForIssue] returns the number of one of
    them or the error of [Select]: the index it uses never leaves the list. *)
Theorem promptForIssue_from_list (issues : list ghapi.Issue) (line : str) r :
  issues <> [] ->
  promptForIssue (Some issues) line = Some r ->
  exists issue, In issue issues /\ r = Some (ghapi.Number issue).
Proof.
  intros Hne. unfold promptForIssue, cmd.promptForIssue.
  destruct issues as [|i0 issues]; [contradiction|].
  cbn [length Nat.eqb].
  destruct (prompt.Select _ _ _ _) as [idx|] eqn:Es; [|discriminate].
  apply Select_within_options in Es. rewrite length_map in Es.
  intros E. injection E as <-.
  destruct (nth_error (i0 :: issues) idx) as [issue|] eqn:En.
  - exists issue. split; [|reflexivity]. eapply nth_error_In, En.
  - apply nth_error_None in En. lia.
Qed.

(** X8: with no issue listed (an error of the listing, or an empty list) the
    number typed is taken as it is, zero and negative numbers included: for
    every [int] [i], the line [i] gives the issue number [i]. *)
Theorem promptForIssue_manual_any_int (listed : option (list ghapi.Issue)) (i : Z) :
  listed = None \/ listed = Some [] ->
  strconv.MinInt64 <= i <= strconv.MaxInt64 ->
  promptForIssue listed (strconv.Itoa i ++ [cmd.nl]) = Some (Some i).
Proof.
  intros Hl Hi.
  assert (Hm : cmd.promptForIssue_manual TrimFunc_IsSpace TrimRightFunc_IsSpace
                 (strconv.Itoa i ++ [cmd.nl]) = Some i).
  { unfold cmd.promptForIssue_manual, prompt.Input.
    change (strconv.Itoa i ++ [cmd.nl]) with ([] ++ strconv.Itoa i ++ [cmd.nl]).
    rewrite TrimSpace_word;
      [|constructor|apply Itoa_visible|repeat constructor].
    destruct (Itoa_visible i) as [Hne _].
    rewrite (proj2 (str_eqb_neq (strconv.Itoa i) (lit "")) Hne).
    now apply Atoi_Itoa_int. }
  unfold promptForIssue, cmd.promptForIssue.
  destruct Hl as [->| ->]; cbn [length Nat.eqb]; now rewrite Hm.
Qed.

End Prompts.

Lemma Select_within_options_witness :
  prompt.Select (fun s => s) (fun s => s) branch.AllIssueTypeStrings (lit " 4 ")
  = Some 3%nat
  /\ (3 < length branch.AllIssueTypeStrings)%nat.
Proof.
  assert (H : prompt.Select (fun s => s) (fun s => s) branch.AllIssueTypeStrings
                (lit " 4 ") = Some 3%nat) by reflexivity.
  split; [exact H|].
  exact (Select_within_options (fun s => s) (fun s => s) _ _ _ H).
Defined.

Lemma Select_number_typed_witness :
  prompt.Select (fun s => s) (fun s => s) branch.AllIssueTypeStrings
    (lit " " ++ strconv.Itoa (Z.of_nat 8 + 1) ++ [ascii_of_nat 13; cmd.nl])
  = Some 8%nat.
Proof.
  apply Select_number_typed.
  - cbn. lia.
  - cbn. unfold strconv.MaxInt64. lia.
  - repeat constructor.
  - repeat constructor.
Defined.

Lemma blank_line_takes_default_witness :
  prompt.Confirm To_excerpt (fun s => s) (fun s => s) true [ascii_of_nat 13; cmd.nl]
  = true
  /\ prompt.Input (fun s => s) (fun s => s) (lit "main") [ascii_of_nat 13; cmd.nl]
     = lit "main".
Proof.
  apply blank_line_takes_default. repeat constructor.
Defined.

Lemma promptForIssue_from_list_witness :
  exists issue,
    In issue [ghapi.Build_Issue 7 (lit "a") [] [] [] [];
              ghapi.Build_Issue 9 (lit "b") [] [] [] []]
    /\ Some 9 = Some (ghapi.Number issue).
Proof.
  apply (promptForIssue_from_list (fun s => s) (fun s => s)
           [ghapi.Build_Issue 7 (lit "a") [] [] [] [];
            ghapi.Build_Issue 9 (lit "b") [] [] [] []]
           (lit "2") (Some 9)).
  - discriminate.
  - reflexivity.
Defined.

Lemma promptForIssue_manual_any_int_witness :
  cmd.promptForIssue (fun s => s) (fun s => s) (Some [])
    (strconv.Itoa (-5) ++ [cmd.nl]) = Some (Some (-5)).
Proof.
  apply promptForIssue_manual_any_int.
  - now right.
  - unfold strconv.MinInt64, strconv.MaxInt64. lia.
Defined.

(** ** The issue type that [runCreateBranch] settles on *)

Lemma AllIssueTypeStrings_valid (idx : nat) :
  (idx < length branch.AllIssueTypeStrings)%nat ->
  branch.ValidIssueType (nth idx branch.AllIssueTypeStrings []) = true.
Proof.
  intros H. do 9 (destruct idx as [|idx]; [reflexivity|]). cbn in H. lia.
Qed.

(** X9: when no type is given or inferred and [-y] is not set, the type is
    the option selected from the list of all issue types; the step fails
    only with the error of [Select], never at the check of the type. *)
Theorem runCreateBranch_issueType_selected
    (F G : str -> str) (issue : ghapi.Issue) (line : str) :
  cmd.inferIssueType issue = lit "" ->
  cmd.runCreateBranch_issueType (lit "") issue false
    (prompt.Select F G branch.AllIssueTypeStrings line)
  = option_map (fun idx => nth idx branch.AllIssueTypeStrings [])
      (prompt.Select F G branch.AllIssueTypeStrings line).
Proof.
  intros Hi. unfold cmd.runCreateBranch_issueType.
  cbn [str_eqb lit list_ascii_of_string]. rewrite Hi.
  cbn [str_eqb lit list_ascii_of_string andb negb].
  destruct (prompt.Select F G branch.AllIssueTypeStrings line) as [idx|] eqn:Es;
    [|reflexivity].
  apply Select_within_options in Es.
  cbn [option_map]. now rewrite (AllIssueTypeStrings_valid idx Es).
Qed.

Lemma runCreateBranch_issueType_selected_witness :
  cmd.runCreateBranch_issueType (lit "") (ghapi.Build_Issue 1 [] [] [] [] []) false
    (prompt.Select (fun s => s) (fun s => s) branch.AllIssueTypeStrings (lit "9"))
  = Some branch.Internal.
Proof.
  exact (runCreateBranch_issueType_selected (fun s => s) (fun s => s)
           (ghapi.Build_Issue 1 [] [] [] [] []) (lit "9") eq_refl).
Defined.

(** X10: every type that [inferIssueType] answers with passes
    [ValidIssueType]; so with [-y] and without [--type] the step never
    fails: the type is the inferred one, or "feature" when there is none. *)
Theorem runCreateBranch_issueType_defaults :
  (forall issue,
     cmd.inferIssueType issue <> lit "" ->
     branch.ValidIssueType (cmd.inferIssueType issue) = true)
  /\ (forall issue selected,
        cmd.runCreateBranch_issueType (lit "") issue true selected
        = Some (if str_eqb (cmd.inferIssueType issue) (lit "")
                then branch.Feature else cmd.inferIssueType issue)).
Proof.
  split.
  - intros issue.
    pose proof (inferIssueType_labels_codomain (ghapi.Labels issue)) as H.
    unfold cmd.inferIssueType.
    repeat (destruct H as [<-|H]; [intros _; reflexivity|]).
    destruct H as [<-|[]]. intros Hne. now elim Hne.
  - intros issue selected.
    pose proof (inferIssueType_labels_codomain (ghapi.Labels issue)) as H.
    unfold cmd.runCreateBranch_issueType, cmd.inferIssueType.
    cbn [str_eqb lit list_ascii_of_string].
    repeat (destruct H as [<-|H]; [reflexivity|]). destruct H.
Qed.

(** X11: a type given with [--type] is never replaced, neither by the
    labels of the issue nor by a selection: the step answers with it when it
    is valid and fails when it is not. *)
Theorem runCreateBranch_issueType_flag
    (flag : str) (issue : ghapi.Issue) (useDefaults : bool) (selected : option nat) :
  flag <> lit "" ->
  cmd.runCreateBranch_issueType flag issue useDefaults selected
  = if branch.ValidIssueType flag then Some flag else None.
Proof.
  intros Hf. unfold cmd.runCreateBranch_issueType.
  pose proof (proj2 (str_eqb_neq flag (lit "")) Hf) as E.
  rewrite E. cbv iota. rewrite !E. cbn [andb].
  now destruct (branch.ValidIssueType flag).
Qed.

Lemma runCreateBranch_issueType_flag_witness :
  cmd.runCreateBranch_issueType (lit "release")
    (ghapi.Build_Issue 1 [] [] [ghapi.Build_Label (lit "bug")] [] []) false (Some 0%nat)
  = Some (lit "release")
  /\ cmd.runCreateBranch_issueType (lit "Feature")
       (ghapi.Build_Issue 1 [] [] [ghapi.Build_Label (lit "bug")] [] []) true None
     = None.
Proof.
  split.
  - exact (runCreateBranch_issueType_flag (lit "release") _ false (Some 0%nat)
             ltac:(discriminate)).
  - exact (runCreateBranch_issueType_flag (lit "Feature") _ true None
             ltac:(discriminate)).
Defined.

(** ** The hand-written [toLower] and the keywords *)

Lemma toLower_byte_not_upper (c : ascii) :
  is_upper c = true -> is_upper (to_byte (byte_val c + (97 - 65))) = false.
Proof.
  unfold is_upper, in_range. intros H.
  apply andb_true_iff in H as [H1 H2]. apply Z.leb_le in H1, H2.
  rewrite byte_val_to_byte by lia. apply andb_false_iff. right.
  apply Z.leb_gt. lia.
Qed.

(** X12: [toLower] changes nothing but the bytes 'A' to 'Z', which it
    replaces by 'a' to 'z': the length stays, no upper-case ASCII letter is
    left, and a second application changes nothing more. *)
Theorem toLower_properties (s : str) :
  length (cmd.toLower s) = length s
  /\ Forall not_upper (cmd.toLower s)
  /\ cmd.toLower (cmd.toLower s) = cmd.toLower s
  /\ (Forall not_upper s -> cmd.toLower s = s).
Proof.
  change (cmd.toLower s)
    with (map (fun c => if is_upper c then to_byte (byte_val c + (97 - 65)) else c) s).
  change (cmd.toLower (map (fun c => if is_upper c then to_byte (byte_val c + (97 - 65)) else c) s))
    with (map (fun c => if is_upper c then to_byte (byte_val c + (97 - 65)) else c)
            (map (fun c => if is_upper c then to_byte (byte_val c + (97 - 65)) else c) s)).
  split; [apply length_map|]. split; [|split].
  - apply Forall_map, Forall_forall. intros c _. unfold not_upper.
    destruct (is_upper c) eqn:E; [now apply toLower_byte_not_upper|exact E].
  - rewrite map_map. apply map_ext. intros c.
    destruct (is_upper c) eqn:E; [|now rewrite E].
    now rewrite (toLower_byte_not_upper c E).
  - intros H. rewrite <- (map_id s) at 2. apply map_ext_in. intros c Hc.
    rewrite Forall_forall in H. now rewrite (H c Hc).
Qed.

(** X13: on a string of ASCII bytes the hand-written [toLower] of package
    cmd and [strings.ToLower] give the same string. *)
Theorem toLower_is_strings_ToLower (To : Z -> Z -> Z) (s : str) :
  forallb is_ascii s = true -> cmd.toLower s = strings.ToLower To s.
Proof.
  intros Ha. unfold strings.ToLower. rewrite Ha.
  destruct (existsb is_upper s) eqn:Eu; [reflexivity|].
  apply (proj2 (proj2 (proj2 (toLower_properties s)))).
  apply Forall_forall. intros c Hc. unfold not_upper.
  destruct (is_upper c) eqn:E; [|reflexivity].
  assert (existsb is_upper s = true) by (apply existsb_exists; eauto). congruence.
Qed.

Lemma toLower_is_strings_ToLower_witness :
  cmd.toLower (lit "Needs-Documentation") = strings.ToLower To_excerpt (lit "Needs-Documentation").
Proof.
  apply toLower_is_strings_ToLower. reflexivity.
Defined.

(** X14: the keywords are compared as they are written, only the label is
    lower-cased: a keyword with an upper-case ASCII letter matches no label. *)
Theorem contains_upper_case_keyword (s : str) (substrs : list str) :
  (forall sub, In sub substrs -> existsb is_upper sub = true) ->
  cmd.contains s substrs = false.
Proof.
  intros Hup. destruct (cmd.contains s substrs) eqn:E; [|reflexivity].
  apply contains_spec in E as (sub & Hin & Hm).
  destruct (toLower_properties s) as (_ & Hlow & _).
  assert (Hsub : Forall not_upper sub).
  { destruct Hm as [<-|[(k & _ & E)|(k & _ & E)]]; [exact Hlow| |];
      rewrite E in Hlow; now apply Forall_app in Hlow. }
  specialize (Hup sub Hin). apply existsb_exists in Hup as (c & Hc & Hu).
  rewrite Forall_forall in Hsub. specialize (Hsub c Hc).
  unfold not_upper in Hsub. congruence.
Qed.

Lemma contains_upper_case_keyword_witness :
  cmd.contains (lit "Bug") [lit "Bug"; lit "FIX"] = false.
Proof.
  apply contains_upper_case_keyword.
  intros sub [<-|[<-|[]]]; reflexivity.
Defined.

(** X15: a first label that is "fix" or ends with "fix", in any mix of
    upper and lower case, makes the issue a bugfix, whatever follows: the
    label "hotfix" itself gives [bugfix], not [hotfix]. *)
Theorem inferIssueType_fix_suffix
    (issue : ghapi.Issue) (label : ghapi.Label) (rest : list ghapi.Label) (k : str) :
  ghapi.Labels issue = label :: rest ->
  cmd.toLower (ghapi.Name label) = k ++ lit "fix" ->
  cmd.inferIssueType issue = lit "bugfix".
Proof.
  intros Hl Hk. unfold cmd.inferIssueType. rewrite Hl.
  cbn [cmd.inferIssueType_labels].
  assert (Hc : cmd.contains (ghapi.Name label) [lit "bug"; lit "fix"] = true).
  { apply contains_spec. exists (lit "fix"). split; [cbn; tauto|].
    destruct k as [|c k]; [now left|]. right; right.
    exists (c :: k). split; [discriminate|exact Hk]. }
  now rewrite Hc.
Qed.

Lemma inferIssueType_fix_suffix_witness :
  cmd.inferIssueType
    (ghapi.Build_Issue 3 [] []
       [ghapi.Build_Label (lit "HotFix"); ghapi.Build_Label (lit "urgent")] [] [])
  = lit "bugfix".
Proof.
  apply (inferIssueType_fix_suffix _ (ghapi.Build_Label (lit "HotFix"))
           [ghapi.Build_Label (lit "urgent")] (lit "hot")); reflexivity.
Defined.

(** ** What [extractIssueFromBranch] reads *)

Lemma span_spec (p : ascii -> bool) (s a b : str) :
  cmd.span p s = (a, b) -> s = a ++ b /\ Forall (fun c => p c = true) a.
Proof.
  revert a b. induction s as [|c s IH]; intros a b; cbn [cmd.span].
  - intros E. injection E as <- <-. now split.
  - destruct (p c) eqn:Ec.
    + destruct (cmd.span p s) as [a' b'] eqn:Es.
      intros E. injection E as <- <-.
      destruct (IH a' b' eq_refl) as [-> Ha]. split; [reflexivity|].
      now constructor.
    + intros E. injection E as <- <-. now split.
Qed.

(** A match starts with "/GH-" and its group is a run of digits. *)
Lemma match_here_shape (s : str) (m : list str) :
  cmd.issueNumberRegex_match_here s = Some m ->
  exists ds rest,
    ds <> [] /\ Forall (fun c => is_digit c = true) ds
    /\ s = lit "/GH-" ++ ds ++ "-"%char :: rest
    /\ m = [lit "/GH-" ++ ds ++ lit "-"; ds].
Proof.
  unfold cmd.issueNumberRegex_match_here.
  destruct s as [|c0 [|c1 [|c2 [|c3 s]]]]; try discriminate;
    try (destruct c0 as [[] [] [] [] [] [] [] []]; discriminate);
    try (destruct c0 as [[] [] [] [] [] [] [] []]; try discriminate;
         destruct c1 as [[] [] [] [] [] [] [] []]; discriminate);
    try (destruct c0 as [[] [] [] [] [] [] [] []]; try discriminate;
         destruct c1 as [[] [] [] [] [] [] [] []]; try discriminate;
         destruct c2 as [[] [] [] [] [] [] [] []]; discriminate).
  destruct c0 as [[] [] [] [] [] [] [] []]; try discriminate.
  destruct c1 as [[] [] [] [] [] [] [] []]; try discriminate.
  destruct c2 as [[] [] [] [] [] [] [] []]; try discriminate.
  destruct c3 as [[] [] [] [] [] [] [] []]; try discriminate.
  destruct (cmd.span is_digit s) as [a b] eqn:Es.
  destruct (span_spec _ _ _ _ Es) as [-> Ha].
  destruct a as [|d ds]; [discriminate|].
  destruct b as [|h b]; [discriminate|].
  destruct h as [[] [] [] [] [] [] [] []]; try discriminate.
  intros E. injection E as <-.
  exists (d :: ds), b. repeat split; try assumption. discriminate.
Qed.

Lemma find_bytes_shape (s : str) :
  find_bytes s = []
  \/ exists pre ds rest,
       ds <> [] /\ Forall (fun c => is_digit c = true) ds
       /\ s = pre ++ lit "/GH-" ++ ds ++ "-"%char :: rest
       /\ find_bytes s = [lit "/GH-" ++ ds ++ lit "-"; ds].
Proof.
  induction s as [|c s IH]; [now left|].
  cbn [find_bytes].
  destruct (cmd.issueNumberRegex_match_here (c :: s)) as [m|] eqn:Em.
  - right. destruct (match_here_shape _ _ Em) as (ds & rest & Hne & Hds & Hs & ->).
    exists [], ds, rest. now repeat split.
  - destruct IH as [IH|(pre & ds & rest & Hne & Hds & Hs & Hf)]; [now left|].
    right. exists (c :: pre), ds, rest. repeat split; try assumption.
    now rewrite Hs.
Qed.

Lemma parse_digits_nonneg (s : str) :
  forall acc v, 0 <= acc -> strconv.parse_digits acc s = Some v -> 0 <= v.
Proof.
  induction s as [|c s IH]; intros acc v Hacc; cbn [strconv.parse_digits].
  - intros E. injection E as <-. exact Hacc.
  - destruct (is_digit c) eqn:Ec; [|discriminate].
    apply IH. unfold is_digit, in_range in Ec.
    apply andb_true_iff in Ec as [E1 _]. apply Z.leb_le in E1. lia.
Qed.

Lemma parse_digits_total (s : str) :
  Forall (fun c => is_digit c = true) s ->
  forall acc, exists v, strconv.parse_digits acc s = Some v.
Proof.
  induction 1 as [|c s Hc _ IH]; intros acc; cbn [strconv.parse_digits].
  - now exists acc.
  - rewrite Hc. apply IH.
Qed.

(** [Atoi] on a run of digits: its value, unless that is beyond [int]. *)
Lemma Atoi_digits (ds : str) (v : Z) :
  ds <> [] -> Forall (fun c => is_digit c = true) ds ->
  strconv.parse_digits 0 ds = Some v ->
  strconv.Atoi ds = if v <=? strconv.MaxInt64 then Some v else None.
Proof.
  intros Hne Hds Hv. unfold strconv.Atoi.
  destruct ds as [|c s]; [contradiction|].
  inversion Hds as [|? ? Hc _]; subst.
  assert (Hm : Ascii.eqb c "-" = false)
    by (apply Ascii.eqb_neq; intros ->; discriminate Hc).
  assert (Hp : Ascii.eqb c "+" = false)
    by (apply Ascii.eqb_neq; intros ->; discriminate Hc).
  rewrite Hm, Hp. cbn [orb]. cbv iota. rewrite Hv.
  pose proof (parse_digits_nonneg _ _ _ (Z.le_refl 0) Hv) as Hpos.
  replace (strconv.MinInt64 <=? v) with true
    by (symmetry; apply Z.leb_le; unfold strconv.MinInt64; lia).
  reflexivity.
Qed.

(** X16: whatever the branch name, the number that
    [extractIssueFromBranch] returns is not negative and within [int]; it is
    0 (absent) when the name holds no "/GH-". *)
Theorem extractIssueFromBranch_range (branchName : str) :
  0 <= cmd.extractIssueFromBranch branchName <= strconv.MaxInt64
  /\ (~ substring (lit "/GH-") branchName ->
      cmd.extractIssueFromBranch branchName = 0).
Proof.
  unfold cmd.extractIssueFromBranch. rewrite FindStringSubmatch_bytes.
  destruct (find_bytes_shape branchName)
    as [->|(pre & ds & rest & Hne & Hds & Hs & ->)].
  - cbn. unfold strconv.MaxInt64. split; [lia|reflexivity].
  - cbn [length Nat.leb nth].
    destruct (parse_digits_total ds Hds 0) as [v Hv].
    rewrite (Atoi_digits ds v Hne Hds Hv).
    pose proof (parse_digits_nonneg _ _ _ (Z.le_refl 0) Hv) as Hpos.
    split.
    + destruct (Z.leb_spec v strconv.MaxInt64); unfold strconv.MaxInt64 in *; lia.
    + intros Hno. elim Hno. exists pre, (ds ++ "-"%char :: rest).
      rewrite Hs. reflexivity.
Qed.

(** X17: in a name whose first slash starts "/GH-<digits>-", the number is
    the decimal value of the digits, leading zeros allowed; a value beyond
    [int] counts as no number at all, also when a good number follows later
    in the name. *)
Theorem extractIssueFromBranch_first_match (pre ds rest : str) (v : Z) :
  Forall no_slash pre ->
  ds <> [] ->
  strconv.parse_digits 0 ds = Some v ->
  cmd.extractIssueFromBranch (pre ++ lit "/GH-" ++ ds ++ lit "-" ++ rest)
  = if v <=? strconv.MaxInt64 then v else 0.
Proof.
  intros Hpre Hne Hv.
  assert (Hds : Forall (fun c => is_digit c = true) ds).
  { clear Hne. revert Hv. generalize 0. induction ds as [|c s IH]; intros acc; [constructor|].
    cbn [strconv.parse_digits]. destruct (is_digit c) eqn:Ec; [|discriminate].
    intros H. constructor; [exact Ec|]. eapply IH, H. }
  unfold cmd.extractIssueFromBranch.
  rewrite Find_skip by exact Hpre. rewrite (Find_issue ds rest Hne Hds).
  cbn [length Nat.leb nth]. rewrite (Atoi_digits ds v Hne Hds Hv).
  now destruct (v <=? strconv.MaxInt64).
Qed.

Lemma extractIssueFromBranch_first_match_witness :
  cmd.extractIssueFromBranch (lit "fix" ++ lit "/GH-" ++ lit "007" ++ lit "-" ++ lit "x") = 7
  /\ cmd.extractIssueFromBranch
       (lit "fix" ++ lit "/GH-" ++ lit "99999999999999999999" ++ lit "-" ++ lit "x/GH-5-y") = 0.
Proof.
  split.
  - apply (extractIssueFromBranch_first_match (lit "fix") (lit "007") (lit "x") 7).
    + repeat constructor; discriminate.
    + discriminate.
    + reflexivity.
  - apply (extractIssueFromBranch_first_match (lit "fix") (lit "99999999999999999999")
             (lit "x/GH-5-y") 99999999999999999999).
    + repeat constructor; discriminate.
    + discriminate.
    + reflexivity.
Defined.

(** ** The title of a pull request, from the branch name *)

(** X18: the type prefix does not show in the title: for a name with one
    slash, the title is that of the part after the slash. *)
Theorem generateTitleFromBranch_type_prefix (To : Z -> Z -> Z) (prefix rest : str) :
  Forall no_slash prefix -> Forall no_slash rest ->
  cmd.generateTitleFromBranch To (prefix ++ "/"%char :: rest)
  = cmd.generateTitleFromBranch To rest.
Proof.
  intros Hp Hr. unfold cmd.generateTitleFromBranch. cbv zeta.
  rewrite (SplitN2_first prefix rest "/" Hp), (SplitN2_none rest "/" Hr).
  reflexivity.
Qed.

Lemma generateTitleFromBranch_type_prefix_witness :
  cmd.generateTitleFromBranch To_excerpt (lit "bugfix" ++ "/"%char :: lit "12-fix-crash")
  = cmd.generateTitleFromBranch To_excerpt (lit "12-fix-crash").
Proof.
  apply generateTitleFromBranch_type_prefix; repeat constructor; discriminate.
Defined.

(** X19: a number in front, with its hyphen, does not show in the title
    either, when the name goes on with something else than a digit. *)
Theorem generateTitleFromBranch_number_prefix (To : Z -> Z -> Z) (ds rest : str) :
  ds <> [] -> Forall (fun c => is_digit c = true) ds ->
  Forall no_slash rest ->
  (forall c rest', rest = c :: rest' -> is_digit c = false) ->
  cmd.generateTitleFromBranch To (ds ++ "-"%char :: rest)
  = cmd.generateTitleFromBranch To rest.
Proof.
  intros Hne Hds Hr Hhead. unfold cmd.generateTitleFromBranch. cbv zeta.
  assert (Hall : Forall no_slash (ds ++ "-"%char :: rest)).
  { apply Forall_app. split.
    - eapply Forall_impl; [|exact Hds]. intros c Hc ->. discriminate Hc.
    - constructor; [discriminate|exact Hr]. }
  rewrite (SplitN2_none _ "/" Hall), (SplitN2_none rest "/" Hr).
  cbn [length Nat.eqb]. unfold cmd.digitsHyphen_ReplaceAllString.
  rewrite (span_digits ds ("-"%char :: rest) Hds)
    by (intros c r E; now inversion E).
  assert (Hsp : cmd.span is_digit rest = ([], rest)).
  { destruct rest as [|c r]; [reflexivity|].
    cbn [cmd.span]. now rewrite (Hhead c r eq_refl). }
  rewrite Hsp. destruct ds as [|d ds]; [contradiction|]. reflexivity.
Qed.

Lemma generateTitleFromBranch_number_prefix_witness :
  cmd.generateTitleFromBranch To_excerpt (lit "42" ++ "-"%char :: lit "add-login-page")
  = cmd.generateTitleFromBranch To_excerpt (lit "add-login-page")
  /\ cmd.generateTitleFromBranch To_excerpt (lit "add-login-page") = lit "Add login page".
Proof.
  split; [|reflexivity].
  apply generateTitleFromBranch_number_prefix.
  - discriminate.
  - repeat constructor.
  - repeat constructor; discriminate.
  - intros c r E. injection E as <- _. reflexivity.
Defined.

(** A single byte from 0x80 on is not valid UTF-8: [strings.ToUpper] writes
    the upper case of U+FFFD for it. *)
Lemma ToUpper_high_byte (To : Z -> Z -> Z) (b : ascii) :
  high b ->
  strings.ToUpper To [b]
  = if 0 <=? To unicode.UpperCase utf8.RuneError
    then utf8.AppendRune (To unicode.UpperCase utf8.RuneError) else [].
Proof.
  intros Hb. unfold high in Hb. unfold strings.ToUpper.
  assert (Ha : forallb is_ascii [b] = false).
  { cbn [forallb]. unfold is_ascii.
    destruct (Z.ltb_spec (byte_val b) 128); [lia|reflexivity]. }
  rewrite Ha.
  assert (Hd : utf8.DecodeRuneInString [b] = (utf8.RuneError, 1%nat)).
  { destruct (utf8.DecodeRuneInString [b]) as [c w] eqn:Ed.
    destruct (DecodeRuneInString_cases _ _ _ Ed)
      as [[Hnil _]|[[-> (b' & t' & Hbt & Hc)]|[Hw _]]].
    - discriminate Hnil.
    - injection Hbt as <- <-. destruct Hc as [[-> _]|[_ Hc]]; [reflexivity|lia].
    - cbn [length] in Hw. lia. }
  unfold strings.Map, utf8.range. cbn [utf8.range_from]. rewrite Hd.
  cbn [Nat.sub utf8.range_from strings.Map_scan].
  change (unicode.ToUpper To utf8.RuneError) with (To unicode.UpperCase utf8.RuneError).
  rewrite Z.eqb_refl. cbn [negb]. rewrite andb_false_r.
  unfold slice_from. cbn [skipn]. rewrite Hd. cbn [Nat.eqb negb andb].
  unfold slice_to. cbn [firstn skipn Nat.add utf8.range_from flat_map app].
  now rewrite app_nil_r.
Qed.

Lemma ToUpper_ascii_byte (To : Z -> Z -> Z) (b : ascii) :
  is_ascii b = true ->
  strings.ToUpper To [b]
  = [if is_lower b then to_byte (byte_val b - (97 - 65)) else b].
Proof.
  intros Ha. unfold strings.ToUpper. cbn [forallb existsb map].
  rewrite Ha. cbn [andb]. rewrite orb_false_r.
  now destruct (is_lower b).
Qed.

Section Title.

Variable To : Z -> Z -> Z.

(** U+FFFD, the replacement character, has no upper case of its own. *)
Hypothesis To_upper_RuneError : To unicode.UpperCase utf8.RuneError = utf8.RuneError.

(** X20: the title holds no hyphen, whatever the branch name. *)
Theorem generateTitleFromBranch_no_hyphen (branchName : str) :
  Forall (fun c => c <> "-"%char) (cmd.generateTitleFromBranch To branchName).
Proof.
  unfold cmd.generateTitleFromBranch. cbv zeta.
  set (title := cmd.digitsHyphen_ReplaceAllString _ _).
  assert (Hr : Forall (fun c => c <> "-"%char) (strings.ReplaceAll title "-" " ")).
  { unfold strings.ReplaceAll. apply Forall_map, Forall_forall. intros c _.
    destruct (Ascii.eqb_spec c "-"); [discriminate|assumption]. }
  destruct (strings.ReplaceAll title "-" " ") as [|b t]; [constructor|].
  cbn [length Nat.ltb Nat.leb]. unfold slice_to, slice_from. cbn [firstn skipn].
  inversion Hr as [|? ? Hb Ht]; subst.
  apply Forall_app. split; [|exact Ht].
  destruct (is_ascii b) eqn:Ea.
  - rewrite (ToUpper_ascii_byte To b Ea). constructor; [|constructor].
    destruct (is_lower b) eqn:El; [|exact Hb].
    unfold is_lower, in_range in El. apply andb_true_iff in El as [E1 E2].
    apply Z.leb_le in E1, E2. intros E.
    apply (f_equal byte_val) in E. rewrite byte_val_to_byte in E by lia.
    change (byte_val "-") with 45 in E. lia.
  - rewrite ToUpper_high_byte, To_upper_RuneError
      by (unfold high; unfold is_ascii in Ea; apply Z.ltb_ge in Ea; exact Ea).
    repeat constructor; discriminate.
Qed.

(** X21: a title that would start with a byte from 0x80 on (the first byte
    of any character beyond ASCII) starts with the three bytes of U+FFFD
    instead, and the bytes after the first follow as they were: the first
    byte alone is given to [strings.ToUpper]. *)
Theorem generateTitleFromBranch_first_byte (b : ascii) (rest : str) :
  high b -> Forall no_slash rest ->
  cmd.generateTitleFromBranch To (b :: rest)
  = utf8.AppendRune utf8.RuneError ++ strings.ReplaceAll rest "-" " ".
Proof.
  intros Hb Hr.
  assert (Hns : no_slash b) by now apply high_no_slash.
  unfold cmd.generateTitleFromBranch. cbv zeta.
  rewrite (SplitN2_none (b :: rest) "/") by now constructor.
  cbn [length Nat.eqb]. unfold cmd.digitsHyphen_ReplaceAllString.
  assert (Hd : is_digit b = false).
  { unfold is_digit, in_range. unfold high in Hb. apply andb_false_iff. right.
    apply Z.leb_gt. lia. }
  cbn [cmd.span]. rewrite Hd.
  assert (Hh : Ascii.eqb b "-" = false).
  { apply Ascii.eqb_neq. intros ->. unfold high in Hb. vm_compute in Hb. now apply Hb. }
  unfold strings.ReplaceAll. cbn [map]. rewrite Hh.
  cbn [length Nat.ltb Nat.leb]. unfold slice_to, slice_from. cbn [firstn skipn].
  rewrite (ToUpper_high_byte To b Hb), To_upper_RuneError. reflexivity.
Qed.

End Title.

Lemma generateTitleFromBranch_no_hyphen_witness :
  Forall (fun c => c <> "-"%char)
    (cmd.generateTitleFromBranch To_excerpt (lit "docs/GH-7-read-me--first-")).
Proof.
  exact (generateTitleFromBranch_no_hyphen To_excerpt eq_refl _).
Defined.

Lemma generateTitleFromBranch_first_byte_witness :
  high (ascii_of_nat 195)
  /\ cmd.generateTitleFromBranch To_excerpt (ascii_of_nat 195 :: ascii_of_nat 169 :: lit "t-e")
     = [ascii_of_nat 239; ascii_of_nat 191; ascii_of_nat 189; ascii_of_nat 169]
       ++ lit "t e".
Proof.
  assert (H : high (ascii_of_nat 195)) by (unfold high; vm_compute; discriminate).
  split; [exact H|].
  apply (generateTitleFromBranch_first_byte To_excerpt eq_refl (ascii_of_nat 195)
           (ascii_of_nat 169 :: lit "t-e") H).
  repeat constructor; discriminate.
Defined.

(** ** More on slugs and branch names *)

Lemma replace_bytes_blank (s : str) :
  existsb is_alnum s = false ->
  forall b, replace_bytes b s (lit "-") = [] \/ replace_bytes b s (lit "-") = ["-"%char].
Proof.
  induction s as [|c s IH]; intros H b; cbn [replace_bytes]; [now left|].
  cbn [existsb] in H. apply orb_false_iff in H as [Hc Hs]. rewrite Hc.
  destruct b.
  - apply IH, Hs.
  - (* a run is replaced once: the rest does not start with another hyphen *)
    destruct (replace_no_double s true) as [_ Hst].
    specialize (Hst eq_refl).
    destruct (IH Hs true) as [E|E]; rewrite E in *; [now right|discriminate Hst].
Qed.

Lemma replace_bytes_keeps (s : str) :
  existsb is_alnum s = true ->
  forall b, exists c, In c (replace_bytes b s (lit "-")) /\ is_alnum c = true.
Proof.
  induction s as [|c s IH]; intros H b; [discriminate|].
  cbn [replace_bytes]. cbn [existsb] in H. destruct (is_alnum c) eqn:Ec.
  - exists c. split; [now left|exact Ec].
  - cbn [orb] in H. destruct b.
    + apply IH, H.
    + destruct (IH H true) as (d & Hd & Ha). exists d. split; [|exact Ha].
      apply in_or_app. now right.
Qed.

Lemma TrimLeft_keeps (s : str) (c : ascii) :
  In c s -> is_hyphen c = false -> In c (strings.TrimLeft s "-").
Proof.
  intros Hin Hc. induction s as [|d s IH]; [contradiction|].
  cbn [strings.TrimLeft]. destruct (Ascii.eqb d "-") eqn:Ed; [|exact Hin].
  destruct Hin as [->|Hin]; [|now apply IH].
  unfold is_hyphen in Hc. congruence.
Qed.

Lemma TrimRight_keeps (s : str) (c : ascii) :
  In c s -> is_hyphen c = false -> In c (strings.TrimRight s "-").
Proof.
  intros Hin Hc. induction s as [|d s IH]; [contradiction|].
  cbn [strings.TrimRight]. destruct Hin as [->|Hin].
  - destruct (strings.TrimRight s "-"); [|now left].
    unfold is_hyphen in Hc. rewrite Hc. now left.
  - specialize (IH Hin). destruct (strings.TrimRight s "-"); [contradiction|].
    now right.
Qed.

Lemma toLower_alnum (s : str) : existsb is_alnum (cmd.toLower s) = existsb is_alnum s.
Proof.
  unfold cmd.toLower. induction s as [|c s IH]; [reflexivity|].
  cbn [map existsb]. rewrite IH. f_equal.
  destruct ((65 <=? byte_val c) && (byte_val c <=? 90)) eqn:E; [|reflexivity].
  apply andb_true_iff in E as [E1 E2]. apply Z.leb_le in E1, E2.
  unfold is_alnum, is_lower, is_upper, is_digit, in_range.
  rewrite byte_val_to_byte by lia.
  repeat match goal with
  | |- context [?a <=? ?b] => destruct (Z.leb_spec a b); try lia
  end; reflexivity.
Qed.

(** X22: the slug is empty exactly when the lower-cased title holds no
    ASCII letter or digit; for a title of ASCII bytes, exactly when the
    title itself holds none. *)
Theorem slugify_empty_iff (To : Z -> Z -> Z) (s : str) :
  (branch.slugify To s = [] <-> existsb is_alnum (strings.ToLower To s) = false)
  /\ (forallb is_ascii s = true ->
      (branch.slugify To s = [] <-> existsb is_alnum s = false)).
Proof.
  assert (Hmain : branch.slugify To s = []
                  <-> existsb is_alnum (strings.ToLower To s) = false).
  { unfold branch.slugify, strings.Trim. rewrite ReplaceAllString_bytes.
    set (l := strings.ToLower To s).
    destruct (existsb is_alnum l) eqn:El.
    - split; [|discriminate]. intros Hempty. exfalso.
      destruct (replace_bytes_keeps l El false) as (c & Hc & Ha).
      pose proof (alnum_not_hyphen c Ha) as Hh.
      pose proof (TrimLeft_keeps _ c (TrimRight_keeps _ c Hc Hh) Hh) as Hin.
      set (t := strings.TrimLeft (strings.TrimRight (replace_bytes false l (lit "-")) "-") "-") in *.
      destruct (Nat.ltb_spec 60 (length t)) as [Hlong|_];
        [|rewrite Hempty in Hin; contradiction].
      pose proof (TrimLeft_starts (strings.TrimRight (replace_bytes false l (lit "-")) "-"))
        as Hst. fold t in Hst.
      destruct t as [|d t']; [cbn in Hlong; lia|].
      cbn [starts_hyphen] in Hst.
      assert (Hd : In d (strings.TrimRight (slice_to (d :: t') 60) "-"))
        by (apply TrimRight_keeps; [now left|exact Hst]).
      rewrite Hempty in Hd. contradiction.
    - split; [reflexivity|]. intros _.
      destruct (replace_bytes_blank l El false) as [-> | ->]; reflexivity. }
  split; [exact Hmain|].
  intros Ha. rewrite Hmain, <- (toLower_is_strings_ToLower To s Ha), toLower_alnum.
  reflexivity.
Qed.

Lemma replace_bytes_no_slash (s : str) :
  forall b, Forall no_slash (replace_bytes b s (lit "-")).
Proof.
  induction s as [|c s IH]; intros b; cbn [replace_bytes]; [constructor|].
  destruct (is_alnum c) eqn:Ec.
  - constructor; [intros ->; discriminate Ec|apply IH].
  - destruct b; [apply IH|]. constructor; [discriminate|apply IH].
Qed.

(** The slug holds no slash, whatever the case table. *)
Lemma slugify_no_slash (To : Z -> Z -> Z) (s : str) :
  Forall no_slash (branch.slugify To s) /\ (length (branch.slugify To s) <= 60)%nat.
Proof.
  unfold branch.slugify, strings.Trim. rewrite ReplaceAllString_bytes.
  set (r := replace_bytes false (strings.ToLower To s) (lit "-")).
  pose proof (replace_bytes_no_slash (strings.ToLower To s) false) as Hr. fold r in Hr.
  destruct (TrimRight_prefix r "-") as [k1 Hk1].
  set (t1 := strings.TrimRight r "-") in *.
  destruct (TrimLeft_suffix t1 "-") as [k2 Hk2].
  set (t2 := strings.TrimLeft t1 "-") in *.
  assert (H2 : Forall no_slash t2).
  { rewrite Hk1 in Hr. apply Forall_app in Hr as [Hr _].
    rewrite Hk2 in Hr. now apply Forall_app in Hr. }
  destruct (Nat.ltb_spec 60 (length t2)) as [Hlong|Hshort]; [|now split].
  unfold slice_to. destruct (TrimRight_prefix (firstn 60 t2) "-") as [k3 Hk3].
  set (t3 := strings.TrimRight (firstn 60 t2) "-") in *. split.
  - assert (Hf : Forall no_slash (firstn 60 t2))
      by (rewrite <- (firstn_skipn 60 t2) in H2; now apply Forall_app in H2).
    rewrite Hk3 in Hf. now apply Forall_app in Hf.
  - assert (Hl : length (firstn 60 t2) = (length t3 + length k3)%nat)
      by (rewrite Hk3 at 1; apply length_app).
    rewrite length_firstn in Hl. lia.
Qed.

(** X23: a generated branch name has one slash, and what stands in front of
    it is the issue type: the split that [generateTitleFromBranch] makes
    gives the type back. *)
Theorem GenerateName_split (To : Z -> Z -> Z) (issueType title : str) (n : Z) :
  branch.ValidIssueType issueType = true ->
  exists rest,
    branch.GenerateName To issueType n title = issueType ++ "/"%char :: rest
    /\ Forall no_slash rest
    /\ strings.SplitN2 (branch.GenerateName To issueType n title) "/" = [issueType; rest].
Proof.
  intros Hv. pose proof (ValidIssueType_no_slash _ Hv) as Ht.
  destruct (slugify_no_slash To title) as [Hslug _].
  unfold branch.GenerateName. destruct (Z.ltb_spec 0 n) as [Hn|Hn].
  - exists (lit "GH-" ++ strconv.Itoa n ++ lit "-" ++ branch.slugify To title).
    split; [reflexivity|].
    assert (Hrest : Forall no_slash
                      (lit "GH-" ++ strconv.Itoa n ++ lit "-" ++ branch.slugify To title)).
    { destruct (Itoa_digits n ltac:(lia)) as (_ & Hds & _).
      apply Forall_app. split; [repeat constructor; discriminate|].
      apply Forall_app. split.
      - eapply Forall_impl; [|exact Hds]. intros c Hc ->. discriminate Hc.
      - constructor; [discriminate|exact Hslug]. }
    split; [exact Hrest|].
    change (issueType ++ lit "/GH-" ++ strconv.Itoa n ++ lit "-" ++ branch.slugify To title)
      with (issueType ++ "/"%char
              :: (lit "GH-" ++ strconv.Itoa n ++ lit "-" ++ branch.slugify To title)).
    now apply SplitN2_first.
  - exists (branch.slugify To title).
    split; [reflexivity|]. split; [exact Hslug|].
    change (issueType ++ lit "/" ++ branch.slugify To title)
      with (issueType ++ "/"%char :: branch.slugify To title).
    now apply SplitN2_first.
Qed.

Lemma GenerateName_split_witness :
  exists rest,
    branch.GenerateName To_excerpt branch.Docs 12 (lit "Read/write API")
    = branch.Docs ++ "/"%char :: rest
    /\ Forall no_slash rest
    /\ strings.SplitN2
         (branch.GenerateName To_excerpt branch.Docs 12 (lit "Read/write API")) "/"
       = [branch.Docs; rest].
Proof.
  apply GenerateName_split. reflexivity.
Defined.

(** The number of digits that [formatBits] writes: one, or no more than the
    number has. *)
Lemma formatBits_length (f : nat) :
  forall u acc, 0 <= u < 2 ^ Z.of_nat (S f) ->
  exists ds,
    strconv.formatBits (S f) u acc = ds ++ acc
    /\ (length ds = 1%nat \/ 10 ^ (Z.of_nat (length ds) - 1) <= u).
Proof.
  induction f as [|f IH]; intros u acc Hu; cbn [strconv.formatBits].
  - assert (Hlt : (u <? 10) = true).
    { apply Z.ltb_lt. change (2 ^ Z.of_nat 1) with 2 in Hu. lia. }
    rewrite Hlt. exists [to_byte (48 + u)]. split; [reflexivity|now left].
  - destruct (Z.ltb_spec u 10) as [Hlt|Hge].
    + exists [to_byte (48 + u)]. split; [reflexivity|now left].
    + assert (Hq : 0 <= u / 10 < 2 ^ Z.of_nat (S f)).
      { split; [apply Z.div_pos; lia|].
        apply Z.div_lt_upper_bound; [lia|].
        replace (Z.of_nat (S (S f))) with (Z.of_nat (S f) + 1) in Hu by lia.
        rewrite Z.pow_add_r in Hu by lia.
        assert (0 < 2 ^ Z.of_nat (S f)) by (apply Z.pow_pos_nonneg; lia).
        change (2 ^ 1) with 2 in Hu. lia. }
      destruct (IH (u / 10) (to_byte (48 + u mod 10) :: acc) Hq) as (ds & Heq & Hlen).
      exists (ds ++ [to_byte (48 + u mod 10)]). split.
      * change (strconv.formatBits (S f) (u / 10) (to_byte (48 + u mod 10) :: acc)
                = (ds ++ [to_byte (48 + u mod 10)]) ++ acc).
        rewrite Heq, <- app_assoc. reflexivity.
      * right. rewrite length_app. cbn [length].
        replace (Z.of_nat (length ds + 1) - 1) with (Z.of_nat (length ds)) by lia.
        pose proof (Z.div_mod u 10 ltac:(lia)) as Hdm.
        pose proof (Z.mod_pos_bound u 10 ltac:(lia)) as Hm.
        destruct Hlen as [->|Hlen]; [change (10 ^ Z.of_nat 1) with 10; lia|].
        destruct ds as [|d ds]; [cbn [length] in *; change (10 ^ Z.of_nat 0) with 1; lia|].
        replace (Z.of_nat (length (d :: ds))) with (Z.of_nat (length (d :: ds)) - 1 + 1)
          by lia.
        rewrite Z.pow_add_r by (cbn [length]; lia).
        change (10 ^ 1) with 10. lia.
Qed.

Lemma Itoa_length (n : Z) :
  0 <= n <= strconv.MaxInt64 -> (length (strconv.Itoa n) <= 19)%nat.
Proof.
  intros Hn. unfold strconv.Itoa. destruct (Z.ltb_spec n 0); [lia|].
  destruct (formatBits_length (Z.to_nat (Z.log2 n)) n []
              (digits_fuel_enough n ltac:(lia))) as (ds & Heq & Hlen).
  unfold strconv.digits_fuel. rewrite Heq, app_nil_r.
  destruct Hlen as [->|Hlen]; [lia|].
  destruct (Nat.le_gt_cases (length ds) 19) as [Hle|Hgt]; [exact Hle|].
  assert (10 ^ 19 <= 10 ^ (Z.of_nat (length ds) - 1))
    by (apply Z.pow_le_mono_r; lia).
  unfold strconv.MaxInt64 in Hn. change (10 ^ 19) with 10000000000000000000 in *. lia.
Qed.

(** X24: a generated branch name is at most 92 bytes long: a type of at most
    8 bytes, "/GH-", at most 19 digits, a hyphen and a slug of at most 60
    bytes; without an issue number, at most 69. *)
Theorem GenerateName_length (To : Z -> Z -> Z) (issueType title : str) (n : Z) :
  branch.ValidIssueType issueType = true ->
  n <= strconv.MaxInt64 ->
  (length (branch.GenerateName To issueType n title) <= 92)%nat
  /\ (n <= 0 -> (length (branch.GenerateName To issueType n title) <= 69)%nat).
Proof.
  intros Hv Hn.
  assert (Ht : (length issueType <= 8)%nat).
  { apply ValidIssueType_In in Hv.
    repeat (destruct Hv as [<-|Hv]; [cbn; lia|]). destruct Hv. }
  destruct (slugify_no_slash To title) as [_ Hs].
  unfold branch.GenerateName. destruct (Z.ltb_spec 0 n) as [Hpos|Hle].
  - pose proof (Itoa_length n ltac:(lia)) as Hi.
    split; [|lia]. rewrite !length_app.
    change (length (lit "/GH-")) with 4%nat. change (length (lit "-")) with 1%nat. lia.
  - assert (Hl : (length (issueType ++ lit "/" ++ branch.slugify To title) <= 69)%nat).
    { rewrite !length_app. change (length (lit "/")) with 1%nat. lia. }
    split; [lia|intros _; exact Hl].
Qed.

Lemma GenerateName_length_witness :
  (length (branch.GenerateName To_excerpt branch.Refactor 9223372036854775807
             (lit "A very long title with many words, certainly longer than sixty - characters"))
   = 92)%nat
  /\ (length (branch.GenerateName To_excerpt branch.Refactor 9223372036854775807
                (lit "A very long title with many words, certainly longer than sixty - characters"))
      <= 92)%nat.
Proof.
  split; [vm_compute; reflexivity|].
  apply GenerateName_length; [reflexivity|unfold strconv.MaxInt64; lia].
Defined.

(** ** The pull request that [CreatePR] reports *)

Lemma Split_from_plain (s cur : str) (sep : ascii) :
  Forall (fun c => c <> sep) s ->
  strings.Split_from cur s sep = [rev cur ++ s].
Proof.
  intros H. revert cur. induction H as [|c s Hc _ IH]; intros cur.
  - cbn. now rewrite app_nil_r.
  - cbn [strings.Split_from]. rewrite (proj2 (Ascii.eqb_neq c sep) Hc), IH.
    cbn [rev]. now rewrite <- app_assoc.
Qed.

Lemma Split_from_nonempty (s cur : str) (sep : ascii) :
  strings.Split_from cur s sep <> [].
Proof.
  revert cur. induction s as [|c s IH]; intros cur; cbn [strings.Split_from].
  - discriminate.
  - destruct (Ascii.eqb c sep); [discriminate|apply IH].
Qed.

Lemma nth_length_last (l : list str) :
  nth (length l - 1) l [] = last l [].
Proof.
  induction l as [|a l IH]; [reflexivity|].
  destruct l as [|b l]; [reflexivity|].
  change (last (a :: b :: l) []) with (last (b :: l) []). rewrite <- IH.
  change (length (a :: b :: l)) with (S (S (length l))).
  change (length (b :: l)) with (S (length l)).
  replace (S (S (length l)) - 1)%nat with (S (length l)) by lia.
  replace (S (length l) - 1)%nat with (length l) by lia.
  reflexivity.
Qed.

Lemma Split_from_last (pre tail : str) (sep : ascii) :
  Forall (fun c => c <> sep) tail ->
  forall cur,
    last (strings.Split_from cur (pre ++ sep :: tail) sep) [] = tail.
Proof.
  intros Ht. induction pre as [|c pre IH]; intros cur; cbn [app strings.Split_from].
  - rewrite Ascii.eqb_refl, (Split_from_plain tail [] sep Ht). reflexivity.
  - destruct (Ascii.eqb c sep); [|apply IH].
    specialize (IH []).
    pose proof (Split_from_nonempty (pre ++ sep :: tail) [] sep) as Hne.
    destruct (strings.Split_from [] (pre ++ sep :: tail) sep) as [|p ps];
      [now elim Hne|exact IH].
Qed.

Lemma Itoa_no_slash (i : Z) :
  Forall (fun c => c <> "/"%char) (strconv.Itoa i).
Proof.
  assert (Hd : forall c, is_digit c = true -> c <> "/"%char).
  { intros c H ->. discriminate H. }
  destruct (Z.lt_ge_cases i 0) as [Hneg|Hpos].
  - destruct (Itoa_negative i Hneg) as (ds & -> & _ & Hds & _).
    constructor; [discriminate|]. eapply Forall_impl; [|exact Hds]. exact Hd.
  - destruct (Itoa_digits i Hpos) as (_ & Hds & _).
    eapply Forall_impl; [|exact Hds]. exact Hd.
Qed.

(** X25: when [gh pr create] prints the URL of the new pull request, a
    string of visible ASCII bytes that ends in a slash and the number, with
    white space around it (the newline at the end), [CreatePR] reports that
    URL without the white space, the number read back from its last segment,
    and the title it was given. *)
Theorem CreatePR_result_number
    (TrimFunc_IsSpace TrimRightFunc_IsSpace : str -> str)
    (title base sp1 sp2 : str) (n : Z) :
  Forall (fun c => visible c = true) base ->
  strconv.MinInt64 <= n <= strconv.MaxInt64 ->
  Forall (fun c => strings.asciiSpace c = true) sp1 ->
  Forall (fun c => strings.asciiSpace c = true) sp2 ->
  ghapi.CreatePR_result TrimFunc_IsSpace TrimRightFunc_IsSpace title
    (sp1 ++ (base ++ "/"%char :: strconv.Itoa n) ++ sp2)
  = {| ghapi.PR_Number := n;
       ghapi.PR_URL := base ++ "/"%char :: strconv.Itoa n;
       ghapi.PR_Title := title |}.
Proof.
  intros Hb Hn H1 H2. unfold ghapi.CreatePR_result.
  rewrite TrimSpace_word; try assumption.
  2:{ apply Forall_app. split; [exact Hb|].
      constructor; [reflexivity|apply Itoa_visible]. }
  unfold strings.Split. rewrite nth_length_last.
  rewrite (Split_from_last base (strconv.Itoa n) "/"%char (Itoa_no_slash n)).
  rewrite (Atoi_Itoa_int n Hn).
  pose proof (Split_from_nonempty (base ++ "/"%char :: strconv.Itoa n) [] "/"%char) as Hne.
  destruct (strings.Split_from [] (base ++ "/"%char :: strconv.Itoa n) "/"%char);
    [now elim Hne|reflexivity].
Qed.

Lemma CreatePR_result_number_witness :
  ghapi.CreatePR_result (fun s => s) (fun s => s) (lit "Add login page")
    (lit "https://github.com/acme/shop/pull/17" ++ [cmd.nl])
  = {| ghapi.PR_Number := 17;
       ghapi.PR_URL := lit "https://github.com/acme/shop/pull/17";
       ghapi.PR_Title := lit "Add login page" |}.
Proof.
  apply (CreatePR_result_number (fun s => s) (fun s => s) (lit "Add login page")
           (lit "https://github.com/acme/shop/pull") [] [cmd.nl] 17).
  - repeat constructor.
  - unfold strconv.MinInt64, strconv.MaxInt64. lia.
  - constructor.
  - repeat constructor.
Defined.
